(** * strtoi_generic.h: string to integer conversion, generic in the
      destination type

    A shallow embedding of [src/strtoi_generic.h] and the properties of
    its specification.

    The header consists of one function, [strtoi_generic_func], and of
    macros that dispatch on the type of the destination with [_Generic]:
    [STRTOI_GENERIC_TYPENAME], [STRTOI_GENERIC_INTMIN],
    [STRTOI_GENERIC_INTMAX], [strtoi_base_generic] and [strtoi_generic].

    Conventions of the embedding.
    - Every C integer is a [Z]; a conversion between integer types is
      written out ([wrap_signed], [wrap_unsigned]).
    - A [const char *] is the [string] of the characters stored at the
      pointer, followed by a terminating NUL that is not part of the
      [string].  A zero character inside the [string] ends the C string
      early, exactly as it does in memory.
    - [endptr] is an offset into [str]; [*endptr] is [char_at].  The
      header declares [endptr] without a value: when the library call
      stores nothing through it, reading it is undefined behaviour.
    - A call of the header yields [Some] of the returned [int] and of the
      content of the destination, or [None] when its behaviour is
      undefined.
    - [strtoll] and [strtoull] belong to the C library, not to the header:
      the header's code is written over the interface [Libc], and a model
      of the two functions after ISO C 7.22.1.4, POSIX and the GNU C
      library is given as the instance [libc].
    - [<limits.h>] and [<errno.h>] are those of an LP64 Linux target. *)

From Stdlib Require Import ZArith Lia Bool Ascii String.

Local Open Scope string_scope.
Local Open Scope Z_scope.

(** ** <limits.h> and <errno.h> *)

(** Modelled from the spec: [<limits.h>] is a header of the platform, not
    of the repository.  The values are those of an LP64 target with 8-bit
    bytes and a signed plain [char], on which the 8-bit types of the
    specification are [signed char] and [unsigned char]. *)
Module Limits.
Definition SCHAR_MIN : Z := -128.
Definition SCHAR_MAX : Z := 127.
Definition UCHAR_MAX : Z := 255.
(* plain char is signed on this target *)
Definition CHAR_MIN : Z := SCHAR_MIN.
Definition CHAR_MAX : Z := SCHAR_MAX.
Definition SHRT_MIN : Z := -32768.
Definition SHRT_MAX : Z := 32767.
Definition USHRT_MAX : Z := 65535.
Definition INT_MIN : Z := -2147483648.
Definition INT_MAX : Z := 2147483647.
Definition UINT_MAX : Z := 4294967295.
Definition LLONG_MIN : Z := -9223372036854775808.
Definition LLONG_MAX : Z := 9223372036854775807.
Definition ULLONG_MAX : Z := 18446744073709551615.
Definition LONG_MIN : Z := LLONG_MIN.
Definition LONG_MAX : Z := LLONG_MAX.
Definition ULONG_MAX : Z := ULLONG_MAX.
End Limits.
Import Limits.

(** Modelled from the spec: [<errno.h>] is a header of the platform; the
    three codes that the header returns negated, with their Linux
    values. *)
Module Errno.
Definition EINVAL : Z := 22.
Definition ERANGE : Z := 34.
Definition ENOTSUP : Z := 95.
End Errno.
Import Errno.

(** ** Integer conversions *)

(** Conversion to an unsigned type of [w] bits. *)
Definition wrap_unsigned (w x : Z) : Z := x mod 2 ^ w.

(** Conversion to a signed type of [w] bits (two's complement). *)
Definition wrap_signed (w x : Z) : Z :=
  let u := x mod 2 ^ w in
  if u <? 2 ^ (w - 1) then u else u - 2 ^ w.

(** [(long long)x] and [(unsigned long long)x]. *)
Definition to_long_long (x : Z) : Z := wrap_signed 64 x.
Definition to_unsigned_long_long (x : Z) : Z := wrap_unsigned 64 x.

(** ** C strings *)

Definition NUL : ascii := Ascii.zero.

Definition code (c : ascii) : Z := Z.of_N (N_of_ascii c).

(** [s[i]]; reading at the end of the [string] yields the terminator. *)
Definition char_at (s : string) (i : nat) : ascii :=
  match String.get i s with
  | Some c => c
  | None => NUL
  end.

(** [strchr(s, c)]: offset of the first [c] of the C string, if any.
    The terminator counts as a character of the string. *)
Fixpoint strchr (s : string) (c : ascii) : option nat :=
  match s with
  | EmptyString => if (c =? NUL)%char then Some 0%nat else None
  | String a r =>
      if (a =? c)%char then Some 0%nat
      else if (a =? NUL)%char then None
      else option_map S (strchr r c)
  end.

Definition is_some {A} (o : option A) : bool :=
  match o with Some _ => true | None => false end.

(** [true] when [p] holds of every character. *)
Fixpoint all_chars (p : ascii -> bool) (s : string) : bool :=
  match s with
  | EmptyString => true
  | String c r => p c && all_chars p r
  end.

(** ** The C library interface used by the header *)

(** What a call [strtoll(str, &endptr, base)] or [strtoull(...)] made with
    [errno == 0] leaves behind: the returned value, what it stored through
    [endptr], and [errno].  [Some n] is the pointer [str + n], which the
    library leaves within the string or on its terminator, where
    [char_at] is what the code reads through it; [None] says that the
    library stored nothing, so that [endptr] still holds what it held
    before the call. *)
Record strto_result := {
  sr_val : Z;
  sr_end : option nat;
  sr_errno : Z
}.

Class Libc := {
  strtoll : string -> Z -> strto_result;
  strtoull : string -> Z -> strto_result
}.

(** The bases that strtol and its family accept. *)
Definition base_supported (base : Z) : bool :=
  (base =? 0) || ((2 <=? base) && (base <=? 36)).

(** ** A model of strtoll and strtoull

    Modelled from the spec: strtoll and strtoull are functions of the C
    library, which is not part of the repository.  The model follows the
    conventional semantics that the specification refers to (ISO C
    7.22.1.4 in the "C" locale, with the [errno] values of POSIX): leading
    white space, an optional sign, the base prefix, the longest run of
    digits of the base; "0x" is a prefix with base 0 or 16, and a leading
    "0" selects octal with base 0.  ISO C leaves a base outside 0 and
    2..36 open; there the model does what the GNU C library does: it sets
    [EINVAL] and returns 0 at once, without storing through [endptr]. *)

Definition isspace (c : ascii) : bool :=
  (code c =? 32) || ((9 <=? code c) && (code c <=? 13)).

(** Value of an alphanumeric character as a digit: 0-9, then a-z or A-Z
    for 10-35. *)
Definition digit_value (c : ascii) : option Z :=
  let n := code c in
  if (48 <=? n) && (n <=? 57) then Some (n - 48)
  else if (97 <=? n) && (n <=? 122) then Some (n - 97 + 10)
  else if (65 <=? n) && (n <=? 90) then Some (n - 65 + 10)
  else None.

(** [c] is a digit of base [b]. *)
Definition valid_digit (b : Z) (c : ascii) : bool :=
  match digit_value c with
  | Some d => d <? b
  | None => false
  end.

(** Leading white space: number of characters skipped and what follows. *)
Fixpoint skip_space (s : string) : nat * string :=
  match s with
  | String c r =>
      if isspace c then let (n, t) := skip_space r in (S n, t)
      else (0%nat, s)
  | EmptyString => (0%nat, s)
  end.

(** Optional sign: negative?, characters skipped, what follows. *)
Definition skip_sign (s : string) : bool * nat * string :=
  match s with
  | String c r =>
      if (c =? "-")%char then (true, 1%nat, r)
      else if (c =? "+")%char then (false, 1%nat, r)
      else (false, 0%nat, s)
  | EmptyString => (false, 0%nat, s)
  end.

(** "0x" or "0X" followed by a hexadecimal digit. *)
Definition is_hex_prefix (s : string) : bool :=
  match s with
  | String c0 (String c1 (String c2 _)) =>
      (c0 =? "0")%char && ((c1 =? "x")%char || (c1 =? "X")%char)
      && valid_digit 16 c2
  | _ => false
  end.

Definition starts_with_zero (s : string) : bool :=
  match s with
  | String c _ => (c =? "0")%char
  | EmptyString => false
  end.

(** Base prefix: the base of the digits, characters skipped, what
    follows.  With base 0 the base is 16 after "0x", 8 after "0" and 10
    otherwise; with base 16 a "0x" is skipped.  A "0x" that no hexadecimal
    digit follows is the digit 0 followed by an 'x'. *)
Definition skip_prefix (base : Z) (s : string) : Z * nat * string :=
  if ((base =? 0) || (base =? 16)) && is_hex_prefix s then
    match s with
    | String _ (String _ r) => (16, 2%nat, r)
    | _ => (16, 0%nat, s)
    end
  else if base =? 0 then
    (if starts_with_zero s then 8 else 10, 0%nat, s)
  else (base, 0%nat, s).

(** The longest run of digits of base [b]: its value on top of [acc], and
    its length. *)
Fixpoint scan_digits (b : Z) (s : string) (acc : Z) : Z * nat :=
  match s with
  | String c r =>
      match digit_value c with
      | Some d =>
          if d <? b then
            let (v, n) := scan_digits b r (acc * b + d) in (v, S n)
          else (acc, 0%nat)
      | None => (acc, 0%nat)
      end
  | EmptyString => (acc, 0%nat)
  end.

(** The subject sequence of [str]: sign, magnitude (unbounded) and the
    offset of the first character after it; offset 0 when there is no
    digit, in which case no conversion is performed. *)
Record subject := {
  sj_neg : bool;
  sj_mag : Z;
  sj_end : nat
}.

Definition scan_integer (str : string) (base : Z) : subject :=
  let '(nws, s1) := skip_space str in
  let '(neg, nsg, s2) := skip_sign s1 in
  let '(b, npx, s3) := skip_prefix base s2 in
  let '(v, nd) := scan_digits b s3 0 in
  if (nd =? 0)%nat then {| sj_neg := false; sj_mag := 0; sj_end := 0 |}
  else {| sj_neg := neg; sj_mag := v; sj_end := nws + nsg + npx + nd |}.

(** Modelled from the spec: strtoull of the C library.  An unsupported
    base sets [EINVAL] and stores no end pointer; a magnitude above
    [ULLONG_MAX] is reported with [ERANGE]; otherwise a minus sign negates
    the value in the return type, which wraps around. *)
Definition strtoull_model (str : string) (base : Z) : strto_result :=
  if negb (base_supported base) then
    {| sr_val := 0; sr_end := None; sr_errno := EINVAL |}
  else
    let j := scan_integer str base in
    if sj_mag j >? ULLONG_MAX then
      {| sr_val := ULLONG_MAX; sr_end := Some (sj_end j); sr_errno := ERANGE |}
    else
      {| sr_val := if sj_neg j then wrap_unsigned 64 (- sj_mag j)
                   else sj_mag j;
         sr_end := Some (sj_end j); sr_errno := 0 |}.

(** Modelled from the spec: strtoll of the C library.  An unsupported
    base sets [EINVAL] and stores no end pointer; a value outside
    [LLONG_MIN, LLONG_MAX] is clamped and reported with [ERANGE]. *)
Definition strtoll_model (str : string) (base : Z) : strto_result :=
  if negb (base_supported base) then
    {| sr_val := 0; sr_end := None; sr_errno := EINVAL |}
  else
    let j := scan_integer str base in
    let v := if sj_neg j then - sj_mag j else sj_mag j in
    if v <? LLONG_MIN then
      {| sr_val := LLONG_MIN; sr_end := Some (sj_end j); sr_errno := ERANGE |}
    else if v >? LLONG_MAX then
      {| sr_val := LLONG_MAX; sr_end := Some (sj_end j); sr_errno := ERANGE |}
    else
      {| sr_val := v; sr_end := Some (sj_end j); sr_errno := 0 |}.

#[export] Instance libc : Libc := {|
  strtoll := strtoll_model;
  strtoull := strtoull_model
|}.

(** ** The header *)

Inductive strtoi_generic_typename :=
| STRTOI_GENERIC_TYPENAME_OTHER
| STRTOI_GENERIC_TYPENAME_SIGNED
| STRTOI_GENERIC_TYPENAME_SIGNED_CHAR
| STRTOI_GENERIC_TYPENAME_SIGNED_SHORT
| STRTOI_GENERIC_TYPENAME_SIGNED_INT
| STRTOI_GENERIC_TYPENAME_SIGNED_LONG
| STRTOI_GENERIC_TYPENAME_SIGNED_LONG_LONG
| STRTOI_GENERIC_TYPENAME_UNSIGNED
| STRTOI_GENERIC_TYPENAME_UNSIGNED_CHAR
| STRTOI_GENERIC_TYPENAME_UNSIGNED_SHORT
| STRTOI_GENERIC_TYPENAME_UNSIGNED_INT
| STRTOI_GENERIC_TYPENAME_UNSIGNED_LONG
| STRTOI_GENERIC_TYPENAME_UNSIGNED_LONG_LONG.

(** The enumeration constants. *)
Definition typename_value (t : strtoi_generic_typename) : Z :=
  match t with
  | STRTOI_GENERIC_TYPENAME_OTHER => 0
  | STRTOI_GENERIC_TYPENAME_SIGNED => 1
  | STRTOI_GENERIC_TYPENAME_SIGNED_CHAR => 2
  | STRTOI_GENERIC_TYPENAME_SIGNED_SHORT => 3
  | STRTOI_GENERIC_TYPENAME_SIGNED_INT => 4
  | STRTOI_GENERIC_TYPENAME_SIGNED_LONG => 5
  | STRTOI_GENERIC_TYPENAME_SIGNED_LONG_LONG => 6
  | STRTOI_GENERIC_TYPENAME_UNSIGNED => SCHAR_MAX
  | STRTOI_GENERIC_TYPENAME_UNSIGNED_CHAR => SCHAR_MAX + 1
  | STRTOI_GENERIC_TYPENAME_UNSIGNED_SHORT => SCHAR_MAX + 2
  | STRTOI_GENERIC_TYPENAME_UNSIGNED_INT => SCHAR_MAX + 3
  | STRTOI_GENERIC_TYPENAME_UNSIGNED_LONG => SCHAR_MAX + 4
  | STRTOI_GENERIC_TYPENAME_UNSIGNED_LONG_LONG => SCHAR_MAX + 5
  end.

(** The type of the destination [*res], as [_Generic] sees it.  Plain
    [char] is a type of its own; [other_type] is any type that no
    association list of the header names, given with its conversion from
    [long long]. *)
Inductive ctype :=
| plain_char
| signed_char | signed_short | signed_int | signed_long | signed_long_long
| unsigned_char | unsigned_short | unsigned_int | unsigned_long
| unsigned_long_long
| other_type (conv : Z -> Z).

Definition STRTOI_GENERIC_TYPENAME (T : ctype) : strtoi_generic_typename :=
  match T with
  | signed_char => STRTOI_GENERIC_TYPENAME_SIGNED_CHAR
  | signed_short => STRTOI_GENERIC_TYPENAME_SIGNED_SHORT
  | signed_int => STRTOI_GENERIC_TYPENAME_SIGNED_INT
  | signed_long => STRTOI_GENERIC_TYPENAME_SIGNED_LONG
  | signed_long_long => STRTOI_GENERIC_TYPENAME_SIGNED_LONG_LONG
  | unsigned_char => STRTOI_GENERIC_TYPENAME_UNSIGNED_CHAR
  | unsigned_short => STRTOI_GENERIC_TYPENAME_UNSIGNED_SHORT
  | unsigned_int => STRTOI_GENERIC_TYPENAME_UNSIGNED_INT
  | unsigned_long => STRTOI_GENERIC_TYPENAME_UNSIGNED_LONG
  | unsigned_long_long => STRTOI_GENERIC_TYPENAME_UNSIGNED_LONG_LONG
  | _ => STRTOI_GENERIC_TYPENAME_OTHER
  end.

Definition __STRTOI_GENERIC_INTMIN (T : ctype) : Z :=
  match T with
  | plain_char => CHAR_MIN
  | signed_char => SCHAR_MIN
  | signed_short => SHRT_MIN
  | signed_int => INT_MIN
  | signed_long => LONG_MIN
  | signed_long_long => LLONG_MIN
  | unsigned_char => 0
  | unsigned_short => 0
  | unsigned_int => 0
  | unsigned_long => 0
  | unsigned_long_long => 0
  | _ => 0
  end.

Definition STRTOI_GENERIC_INTMIN (T : ctype) : Z :=
  to_long_long (__STRTOI_GENERIC_INTMIN T).

Definition __STRTOI_GENERIC_INTMAX (T : ctype) : Z :=
  match T with
  | plain_char => CHAR_MAX
  | signed_char => SCHAR_MAX
  | signed_short => SHRT_MAX
  | signed_int => INT_MAX
  | signed_long => LONG_MAX
  | signed_long_long => LLONG_MAX
  | unsigned_char => UCHAR_MAX
  | unsigned_short => USHRT_MAX
  | unsigned_int => UINT_MAX
  | unsigned_long => ULONG_MAX
  | unsigned_long_long => ULLONG_MAX
  | _ => 0
  end.

Definition STRTOI_GENERIC_INTMAX (T : ctype) : Z :=
  to_unsigned_long_long (__STRTOI_GENERIC_INTMAX T).

(** [(T)num], the conversion of [num] to the type of the destination. *)
Definition convert (T : ctype) (num : Z) : Z :=
  match T with
  | plain_char => wrap_signed 8 num
  | signed_char => wrap_signed 8 num
  | signed_short => wrap_signed 16 num
  | signed_int => wrap_signed 32 num
  | signed_long => wrap_signed 64 num
  | signed_long_long => wrap_signed 64 num
  | unsigned_char => wrap_unsigned 8 num
  | unsigned_short => wrap_unsigned 16 num
  | unsigned_int => wrap_unsigned 32 num
  | unsigned_long => wrap_unsigned 64 num
  | unsigned_long_long => wrap_unsigned 64 num
  | other_type conv => conv num
  end.

(** [type > STRTOI_GENERIC_TYPENAME_UNSIGNED]. *)
Definition above_unsigned (type : strtoi_generic_typename) : bool :=
  typename_value type >? typename_value STRTOI_GENERIC_TYPENAME_UNSIGNED.

(** [strtoi_generic_func(str, min, max, type, base, &num)].  [num] is what
    [*num] holds before the call; the result is the returned [int] and
    what [*num] holds after the call.  The local [endptr] has no
    initializer: when the library call stores nothing through it, the
    first test after the call compares and dereferences a pointer that
    was never set, and the behaviour is undefined. *)
Definition strtoi_generic_func {L : Libc} (str : string) (min max : Z)
    (type : strtoi_generic_typename) (base : Z) (num : Z)
    : option (Z * Z) :=
  if typename_value type =? 0 then Some (- ENOTSUP, num)
  else
    let r := if above_unsigned type then strtoull str base
             else strtoll str base in
    let ret := if above_unsigned type then to_long_long (sr_val r)
               else sr_val r in
    let errno := sr_errno r in
    match sr_end r with
    | None => None
    | Some endptr =>
        if (endptr =? 0)%nat || negb (char_at str endptr =? NUL)%char
           || (negb (errno =? 0) && negb (errno =? ERANGE))
        then Some (- EINVAL, num)
        else if errno =? ERANGE then Some (- ERANGE, num)
        else if above_unsigned type then
          if is_some (strchr str "-") || (to_unsigned_long_long ret >? max)
          then Some (- ERANGE, num)
          else Some (0, ret)
        else if (ret <? min)
                || ((ret >? 0) && (to_unsigned_long_long ret >? max))
        then Some (- ERANGE, num)
        else Some (0, ret)
    end.

(** [strtoi_base_generic(str, base, res)] with [res] of type [T *].
    [res] is what [*res] holds before, [num] the indeterminate content of
    the macro's local [num]; the result is the value of the statement
    expression and what [*res] holds after. *)
Definition strtoi_base_generic {L : Libc} (T : ctype) (str : string)
    (base : Z) (res : Z) (num : Z) : option (Z * Z) :=
  match
    strtoi_generic_func str (STRTOI_GENERIC_INTMIN T)
      (STRTOI_GENERIC_INTMAX T) (STRTOI_GENERIC_TYPENAME T) base num
  with
  | Some (ret, num') =>
      if ret >=? 0 then Some (ret, convert T num') else Some (ret, res)
  | None => None
  end.

(** [strtoi_generic(str, res)]. *)
Definition strtoi_generic {L : Libc} (T : ctype) (str : string)
    (res : Z) (num : Z) : option (Z * Z) :=
  strtoi_base_generic T str 0 res num.

(** The [int] that a call returned, and what the destination holds after
    it, when the call has a defined behaviour. *)
Definition returned (out : option (Z * Z)) : option Z := option_map fst out.
Definition stored (out : option (Z * Z)) : option Z := option_map snd out.

(** ** Destination types, as the dispatch classifies them *)

(** [STRTOI_GENERIC_TYPENAME] resolves [T] to something else than
    [STRTOI_GENERIC_TYPENAME_OTHER]. *)
Definition supported (T : ctype) : bool :=
  negb (typename_value (STRTOI_GENERIC_TYPENAME T) =? 0).

(** [T] is parsed with strtoull. *)
Definition is_unsigned (T : ctype) : bool :=
  above_unsigned (STRTOI_GENERIC_TYPENAME T).

(** [T] is supported and parsed with strtoll. *)
Definition is_signed (T : ctype) : bool :=
  supported T && negb (is_unsigned T).

(** [v] lies between the minimum and the maximum that the header passes
    for [T]. *)
Definition representable (T : ctype) (v : Z) : Prop :=
  STRTOI_GENERIC_INTMIN T <= v <= STRTOI_GENERIC_INTMAX T.

(** The library call that [strtoi_generic_func] makes for [T]. *)
Definition strto_call {L : Libc} (T : ctype) (str : string) (base : Z)
    : strto_result :=
  if is_unsigned T then strtoull str base else strtoll str base.

(** The first test after the library call passes: the library stored an
    end pointer, something was converted, the whole string was consumed,
    and [errno] is 0 or [ERANGE]. *)
Definition format_ok (str : string) (r : strto_result) : Prop :=
  match sr_end r with
  | Some e =>
      e <> 0%nat /\ char_at str e = NUL /\
      (sr_errno r = 0 \/ sr_errno r = ERANGE)
  | None => False
  end.

(** Modelled from the spec: the values of each integer type, which the C
    implementation fixes, not the header.  LP64 with 8-bit bytes and two's
    complement: [w] bits hold -2^(w-1) .. 2^(w-1)-1 when signed and
    0 .. 2^w-1 when unsigned.  A type outside the list holds the values
    that its conversion keeps. *)
Definition in_type (T : ctype) (v : Z) : Prop :=
  match T with
  | plain_char => - 2 ^ 7 <= v <= 2 ^ 7 - 1
  | signed_char => - 2 ^ 7 <= v <= 2 ^ 7 - 1
  | signed_short => - 2 ^ 15 <= v <= 2 ^ 15 - 1
  | signed_int => - 2 ^ 31 <= v <= 2 ^ 31 - 1
  | signed_long => - 2 ^ 63 <= v <= 2 ^ 63 - 1
  | signed_long_long => - 2 ^ 63 <= v <= 2 ^ 63 - 1
  | unsigned_char => 0 <= v <= 2 ^ 8 - 1
  | unsigned_short => 0 <= v <= 2 ^ 16 - 1
  | unsigned_int => 0 <= v <= 2 ^ 32 - 1
  | unsigned_long => 0 <= v <= 2 ^ 64 - 1
  | unsigned_long_long => 0 <= v <= 2 ^ 64 - 1
  | other_type conv => conv v = v
  end.

(** ** Numerals *)

(** Value of a run of digits of base [b], on top of [acc]. *)
Fixpoint numeral_value (b : Z) (ds : string) (acc : Z) : Z :=
  match ds with
  | String c r =>
      match digit_value c with
      | Some d => numeral_value b r (acc * b + d)
      | None => acc
      end
  | EmptyString => acc
  end.

(** The base in which strtol reads the digits [ds] when called with
    [base] and no "0x" prefix is present. *)
Definition radix (base : Z) (ds : string) : Z :=
  if base =? 0 then (if starts_with_zero ds then 8 else 10) else base.

(** [s] is empty or starts with a character that is no digit of base
    [b]: a run of digits ends there. *)
Definition stops (b : Z) (s : string) : bool :=
  match s with
  | String c _ => negb (valid_digit b c)
  | EmptyString => true
  end.

(** An optional sign. *)
Definition is_sign (sg : string) : bool :=
  (sg =? "")%string || (sg =? "+")%string || (sg =? "-")%string.

(** The character for the decimal digit [d]. *)
Definition digit_char (d : Z) : ascii := ascii_of_N (Z.to_N (48 + d)).

(** Decimal digits of [n], most significant first, in front of [acc]. *)
Fixpoint format_digits (fuel : nat) (n : Z) (acc : string) : string :=
  match fuel with
  | O => acc
  | S f =>
      let acc' := String (digit_char (n mod 10)) acc in
      if n <? 10 then acc' else format_digits f (n / 10) acc'
  end.

(** Decimal text of [n >= 0]; a number has no more decimal digits than
    binary ones, which bounds the recursion. *)
Definition format_unsigned (n : Z) : string :=
  format_digits (S (Z.to_nat (Z.log2 n))) n "".

(** Modelled from the spec: "formatting v as decimal text", which no code
    of the repository does.  A minus sign for a negative number, then the
    decimal digits without leading zeros, as printf's %lld and %llu write
    them. *)
Definition format_decimal (v : Z) : string :=
  if v <? 0 then String "-" (format_unsigned (- v)) else format_unsigned v.

(** [s] holds no zero character: it is the content of a C string. *)
Definition no_nul (s : string) : bool :=
  all_chars (fun c => negb (c =? NUL)%char) s.

(** "0x" or "0X". *)
Definition is_0x (px : string) : bool :=
  (px =? "0x")%string || (px =? "0X")%string.

(** Inputs that the specification calls badly formatted, for a call with
    [base]: the empty string, white space only, no digit of the base at
    all, or a number followed by a character that is no digit of its base.
    A number is white space, an optional sign and either digits of the
    base ([bad_trailing]) or, with base 0 or 16, "0x" and hexadecimal
    digits ([bad_trailing_hex]).  In "0x1F" with base 0 or 16 the 'x'
    opens the prefix and does not follow the number "0"; it does follow
    it with any other base, and when no hexadecimal digit comes after
    it. *)
Inductive badly_formatted (base : Z) : string -> Prop :=
| bad_empty : badly_formatted base ""
| bad_space : forall s,
    all_chars isspace s = true -> badly_formatted base s
| bad_no_digit : forall s,
    all_chars (fun c => negb (valid_digit (radix base "") c)) s = true ->
    badly_formatted base s
| bad_trailing : forall ws sg ds c rest,
    all_chars isspace ws = true ->
    is_sign sg = true ->
    ds <> "" ->
    all_chars (valid_digit (radix base ds)) ds = true ->
    valid_digit (radix base ds) c = false ->
    c <> NUL ->
    (base = 0 \/ base = 16 -> is_hex_prefix (ds ++ String c rest) = false) ->
    badly_formatted base (ws ++ sg ++ ds ++ String c rest)
| bad_trailing_hex : forall ws sg px hs c rest,
    base = 0 \/ base = 16 ->
    all_chars isspace ws = true ->
    is_sign sg = true ->
    is_0x px = true ->
    hs <> "" ->
    all_chars (valid_digit 16) hs = true ->
    valid_digit 16 c = false ->
    c <> NUL ->
    badly_formatted base (ws ++ sg ++ px ++ hs ++ String c rest).

(** What may follow a '-' to make a complete number for a call with
    [base]: one or more digits of the base up to the end of the string
    or, with base 0 or 16, "0x" and one or more hexadecimal digits up to
    the end of the string. *)
Inductive numeral (base : Z) : string -> Prop :=
| numeral_digits : forall ds,
    ds <> "" ->
    all_chars (valid_digit (radix base ds)) ds = true ->
    numeral base ds
| numeral_hex : forall px hs,
    base = 0 \/ base = 16 ->
    is_0x px = true ->
    hs <> "" ->
    all_chars (valid_digit 16) hs = true ->
    numeral base (px ++ hs).

(** The library functions return values of their return types: a
    [long long] from strtoll, an [unsigned long long] from strtoull. *)
Definition well_ranged (L : Libc) : Prop :=
  forall str base,
    LLONG_MIN <= sr_val (strtoll str base) <= LLONG_MAX /\
    0 <= sr_val (strtoull str base) <= ULLONG_MAX.

(** * Properties *)

(** ** Conversions *)

Lemma wrap_unsigned_id w x :
  0 <= x < 2 ^ w -> wrap_unsigned w x = x.
Proof. intros H. unfold wrap_unsigned. now apply Z.mod_small. Qed.

Lemma wrap_signed_id w x :
  0 < w -> - 2 ^ (w - 1) <= x < 2 ^ (w - 1) -> wrap_signed w x = x.
Proof.
  intros Hw H. unfold wrap_signed.
  assert (E : 2 ^ w = 2 * 2 ^ (w - 1)).
  { replace w with (Z.succ (w - 1)) at 1 by lia. apply Z.pow_succ_r. lia. }
  destruct (Z_lt_le_dec x 0) as [Hn | Hp].
  - replace (x mod 2 ^ w) with (x + 2 ^ w).
    + destruct (Z.ltb_spec (x + 2 ^ w) (2 ^ (w - 1))); lia.
    + apply Z.mod_unique with (q := -1); lia.
  - rewrite Z.mod_small by lia.
    destruct (Z.ltb_spec x (2 ^ (w - 1))); lia.
Qed.

(** Reading back as unsigned what was stored as [long long]. *)
Lemma wrap_unsigned_signed w x :
  0 < w <= 64 -> wrap_unsigned w (wrap_signed 64 x) = wrap_unsigned w x.
Proof.
  intros Hw. unfold wrap_unsigned, wrap_signed.
  assert (E : 2 ^ 64 = 2 ^ (64 - w) * 2 ^ w).
  { rewrite <- Z.pow_add_r by lia. f_equal. lia. }
  assert (P : 0 < 2 ^ w) by (apply Z.pow_pos_nonneg; lia).
  assert (M : (x mod 2 ^ 64) mod 2 ^ w = x mod 2 ^ w).
  { rewrite E. rewrite Z.mul_comm.
    rewrite Z.rem_mul_r by (try apply Z.pow_pos_nonneg; lia).
    rewrite Z.mul_comm, Z.mod_add by lia. apply Z.mod_mod. lia. }
  destruct (x mod 2 ^ 64 <? 2 ^ (64 - 1)); [exact M|].
  rewrite <- M. rewrite E at 2.
  replace (x mod 2 ^ 64 - 2 ^ (64 - w) * 2 ^ w)
    with (x mod 2 ^ 64 + (- 2 ^ (64 - w)) * 2 ^ w) by ring.
  apply Z.mod_add. lia.
Qed.

(** ** The header over any C library *)

Section Header.
Context {L : Libc}.

(** Takes the tests of [strtoi_generic_func] apart. *)
Ltac branches :=
  repeat match goal with
    | |- context [match ?o with Some _ => _ | None => _ end] =>
        destruct o eqn:?
    | |- context [if ?b then _ else _] => destruct b eqn:?
    end.

Lemma func_unsupported_type str min max base num :
  strtoi_generic_func str min max STRTOI_GENERIC_TYPENAME_OTHER base num
  = Some (- ENOTSUP, num).
Proof. reflexivity. Qed.

(** The function has no defined behaviour, or returns one of four values,
    and stores through [num] only when it returns 0. *)
Lemma func_outcomes str min max type base num :
  let out := strtoi_generic_func str min max type base num in
  out = None \/
  out = Some (- ENOTSUP, num) \/ out = Some (- EINVAL, num) \/
  out = Some (- ERANGE, num) \/ exists v, out = Some (0, v).
Proof.
  unfold strtoi_generic_func. cbv zeta. branches; simpl; eauto 6.
Qed.

Lemma macro_unsupported_type T str base res num :
  supported T = false ->
  strtoi_base_generic T str base res num = Some (- ENOTSUP, res).
Proof.
  unfold supported, strtoi_base_generic, strtoi_generic_func.
  intros H. apply negb_false_iff in H. rewrite H. reflexivity.
Qed.

(** What the macro yields, by the outcome of the function. *)
Lemma macro_of_func T str base res num :
  strtoi_base_generic T str base res num
  = match
      strtoi_generic_func str (STRTOI_GENERIC_INTMIN T)
        (STRTOI_GENERIC_INTMAX T) (STRTOI_GENERIC_TYPENAME T) base num
    with
    | Some (ret, n) =>
        if ret =? 0 then Some (0, convert T n) else Some (ret, res)
    | None => None
    end.
Proof.
  unfold strtoi_base_generic.
  destruct (func_outcomes str (STRTOI_GENERIC_INTMIN T)
              (STRTOI_GENERIC_INTMAX T) (STRTOI_GENERIC_TYPENAME T)
              base num) as [E | [E | [E | [E | [v E]]]]];
    cbv zeta in E; rewrite E; reflexivity.
Qed.

(** A library call that stores no end pointer leaves the first test with
    a pointer that was never set. *)
Lemma macro_undefined T str base res num :
  supported T = true ->
  sr_end (strto_call T str base) = None ->
  strtoi_base_generic T str base res num = None.
Proof.
  unfold supported, strto_call, is_unsigned.
  intros HT He. apply negb_true_iff in HT.
  unfold strtoi_base_generic, strtoi_generic_func. rewrite HT.
  cbv zeta. now rewrite He.
Qed.

(** The first test after the library call. *)
Lemma macro_format_error T str base res num :
  supported T = true ->
  sr_end (strto_call T str base) <> None ->
  ~ format_ok str (strto_call T str base) ->
  strtoi_base_generic T str base res num = Some (- EINVAL, res).
Proof.
  unfold supported, strto_call, is_unsigned, format_ok.
  intros HT Hs Hf. apply negb_true_iff in HT.
  unfold strtoi_base_generic, strtoi_generic_func. rewrite HT.
  set (r := if above_unsigned (STRTOI_GENERIC_TYPENAME T)
            then strtoull str base else strtoll str base) in *.
  cbv zeta. destruct (sr_end r) as [e|]; [|contradiction].
  destruct (Nat.eqb_spec e 0) as [E0 | E0]; [reflexivity|].
  destruct (Ascii.eqb_spec (char_at str e) NUL) as [En | En];
    [|reflexivity].
  destruct (Z.eqb_spec (sr_errno r) 0) as [Ee | Ee];
    [exfalso; apply Hf; auto|].
  destruct (Z.eqb_spec (sr_errno r) ERANGE) as [Er | Er];
    [exfalso; apply Hf; auto|].
  reflexivity.
Qed.

(** The second test: an overflow that the library reports. *)
Lemma macro_library_overflow T str base res num :
  supported T = true ->
  format_ok str (strto_call T str base) ->
  sr_errno (strto_call T str base) = ERANGE ->
  strtoi_base_generic T str base res num = Some (- ERANGE, res).
Proof.
  unfold supported, strto_call, is_unsigned, format_ok.
  intros HT Hok He. apply negb_true_iff in HT.
  unfold strtoi_base_generic, strtoi_generic_func. rewrite HT.
  set (r := if above_unsigned (STRTOI_GENERIC_TYPENAME T)
            then strtoull str base else strtoll str base) in *.
  cbv zeta. destruct (sr_end r) as [e|]; [|contradiction].
  destruct Hok as (H0 & Hn & _).
  apply Nat.eqb_neq in H0. rewrite H0, Hn, He. reflexivity.
Qed.

(** The range tests, reached with [errno == 0]. *)
Lemma macro_range_tests T str base res num :
  supported T = true ->
  format_ok str (strto_call T str base) ->
  sr_errno (strto_call T str base) = 0 ->
  let v := sr_val (strto_call T str base) in
  strtoi_base_generic T str base res num =
    Some (if is_unsigned T then
            if is_some (strchr str "-")
               || (to_unsigned_long_long (to_long_long v)
                   >? STRTOI_GENERIC_INTMAX T)
            then (- ERANGE, res)
            else (0, convert T (to_long_long v))
          else
            if (v <? STRTOI_GENERIC_INTMIN T)
               || ((v >? 0)
                   && (to_unsigned_long_long v >? STRTOI_GENERIC_INTMAX T))
            then (- ERANGE, res)
            else (0, convert T v)).
Proof.
  unfold supported, strto_call, is_unsigned, format_ok.
  intros HT Hok He. apply negb_true_iff in HT.
  unfold strtoi_base_generic, strtoi_generic_func. rewrite HT.
  destruct (above_unsigned (STRTOI_GENERIC_TYPENAME T)); cbv zeta;
    (destruct (sr_end _) as [e|]; [|contradiction]);
    destruct Hok as (H0 & Hn & _); apply Nat.eqb_neq in H0;
    rewrite H0, Hn, He; simpl;
    match goal with
    | |- _ = Some (if ?b then _ else _) => destruct b
    end; reflexivity.
Qed.

(** Whether the first test passes can be decided. *)
Lemma format_ok_dec str r : format_ok str r \/ ~ format_ok str r.
Proof.
  unfold format_ok. destruct (sr_end r) as [e|]; [|tauto].
  destruct (Nat.eq_dec e 0); [tauto|].
  destruct (ascii_dec (char_at str e) NUL); [|tauto].
  destruct (Z.eq_dec (sr_errno r) 0); [tauto|].
  destruct (Z.eq_dec (sr_errno r) ERANGE); tauto.
Qed.

Lemma format_ok_stored str r : format_ok str r -> sr_end r <> None.
Proof. unfold format_ok. destruct (sr_end r); [discriminate|tauto]. Qed.

(** The outcomes of the macro, by what the library call left behind. *)
Lemma macro_cases T str base res num :
  (supported T = false /\
   strtoi_base_generic T str base res num = Some (- ENOTSUP, res)) \/
  (supported T = true /\ sr_end (strto_call T str base) = None /\
   strtoi_base_generic T str base res num = None) \/
  (supported T = true /\ sr_end (strto_call T str base) <> None /\
   ~ format_ok str (strto_call T str base) /\
   strtoi_base_generic T str base res num = Some (- EINVAL, res)) \/
  (supported T = true /\ format_ok str (strto_call T str base) /\
   (strtoi_base_generic T str base res num = Some (- ERANGE, res) \/
    exists v, strtoi_base_generic T str base res num = Some (0, v))).
Proof.
  destruct (supported T) eqn:HT.
  2:{ left. split; [reflexivity|]. now apply macro_unsupported_type. }
  right. destruct (sr_end (strto_call T str base)) as [e|] eqn:Hs.
  2:{ left. split; [reflexivity|]. split; [reflexivity|].
      now apply macro_undefined. }
  right. destruct (format_ok_dec str (strto_call T str base)) as [Hok | Hbad].
  - right. split; [reflexivity|]. split; [exact Hok|].
    assert (He : sr_errno (strto_call T str base) = 0 \/
                 sr_errno (strto_call T str base) = ERANGE).
    { unfold format_ok in Hok. rewrite Hs in Hok. tauto. }
    destruct He as [He | He].
    + rewrite macro_range_tests by assumption.
      repeat match goal with
        | |- context [if ?b then _ else _] => destruct b
        end; eauto.
    + left. now apply macro_library_overflow.
  - left. split; [reflexivity|]. split; [congruence|]. split; [exact Hbad|].
    apply macro_format_error; congruence.
Qed.

End Header.

(** ** Characters *)

Lemma digit_value_range c d : digit_value c = Some d -> 0 <= d < 36.
Proof.
  unfold digit_value.
  repeat match goal with
    | |- context [?x <=? ?y] => destruct (Z.leb_spec x y); simpl
    end; intros E; inversion E; lia.
Qed.

Lemma space_no_digit c b : isspace c = true -> valid_digit b c = false.
Proof.
  unfold isspace, valid_digit, digit_value. intros H.
  apply orb_true_iff in H.
  rewrite Z.eqb_eq, andb_true_iff, !Z.leb_le in H.
  repeat match goal with
    | |- context [(?x <=? ?y) && _] => destruct (Z.leb_spec x y); simpl
    | |- context [?x <=? ?y] => destruct (Z.leb_spec x y); simpl
    end; try reflexivity; lia.
Qed.

Lemma digit_no_space c b : valid_digit b c = true -> isspace c = false.
Proof.
  intros H. destruct (isspace c) eqn:E; [|reflexivity].
  rewrite (space_no_digit _ b E) in H. discriminate.
Qed.

(** A character that has a digit value is neither a sign nor NUL. *)
Lemma digit_no_sign c b :
  valid_digit b c = true -> c <> "-"%char /\ c <> "+"%char /\ c <> NUL.
Proof.
  intros H. repeat split; intros ->; discriminate H.
Qed.

Lemma space_no_sign c :
  isspace c = true -> c <> "-"%char /\ c <> "+"%char /\ c <> NUL.
Proof.
  intros H. repeat split; intros ->; discriminate H.
Qed.

Lemma valid_digit_mono b b' c :
  b <= b' -> valid_digit b c = true -> valid_digit b' c = true.
Proof.
  unfold valid_digit. destruct (digit_value c); [|discriminate].
  rewrite !Z.ltb_lt. lia.
Qed.

Lemma digit_char_value d :
  0 <= d < 10 -> digit_value (digit_char d) = Some d.
Proof.
  intros H.
  assert (E : d = 0 \/ d = 1 \/ d = 2 \/ d = 3 \/ d = 4 \/ d = 5 \/ d = 6
              \/ d = 7 \/ d = 8 \/ d = 9) by lia.
  repeat (destruct E as [-> | E]; [reflexivity|]). subst. reflexivity.
Qed.

Lemma digit_char_zero d :
  0 <= d < 10 -> (digit_char d =? "0")%char = (d =? 0).
Proof.
  intros H.
  assert (E : d = 0 \/ d = 1 \/ d = 2 \/ d = 3 \/ d = 4 \/ d = 5 \/ d = 6
              \/ d = 7 \/ d = 8 \/ d = 9) by lia.
  repeat (destruct E as [-> | E]; [reflexivity|]). subst. reflexivity.
Qed.

(** ** Strings *)

Lemma all_chars_app p s t :
  all_chars p (s ++ t) = all_chars p s && all_chars p t.
Proof.
  induction s as [|c s IH]; simpl; [reflexivity|].
  rewrite IH. apply andb_assoc.
Qed.

Lemma all_chars_weaken (p q : ascii -> bool) s :
  (forall c, p c = true -> q c = true) ->
  all_chars p s = true -> all_chars q s = true.
Proof.
  intros Hpq. induction s as [|c s IH]; simpl; [reflexivity|].
  rewrite !andb_true_iff. intros [H1 H2]. auto.
Qed.

Lemma char_at_app s t n :
  char_at (s ++ t) (String.length s + n) = char_at t n.
Proof.
  unfold char_at. induction s as [|c s IH]; simpl; [reflexivity|]. exact IH.
Qed.

Lemma char_at_end s : char_at s (String.length s) = NUL.
Proof.
  unfold char_at. induction s as [|c s IH]; simpl; [reflexivity|]. exact IH.
Qed.

Lemma length_app s t :
  String.length (s ++ t) = (String.length s + String.length t)%nat.
Proof. induction s as [|c s IH]; simpl; [reflexivity|]. now rewrite IH. Qed.

(** strchr finds a character that follows characters which are neither
    it nor NUL. *)
Lemma strchr_app_found s c t :
  all_chars (fun a => negb (a =? c)%char && negb (a =? NUL)%char) s = true ->
  strchr (s ++ String c t) c = Some (String.length s).
Proof.
  induction s as [|a s IH]; simpl.
  - intros _. now rewrite Ascii.eqb_refl.
  - rewrite !andb_true_iff, !negb_true_iff. intros [[H1 H2] H3].
    rewrite H1, H2, (IH H3). reflexivity.
Qed.

Lemma strchr_absent p s c :
  (forall a, p a = true -> a <> c) -> c <> NUL ->
  all_chars p s = true -> strchr s c = None.
Proof.
  intros Hp Hc. induction s as [|a s IH]; simpl.
  - intros _. destruct (Ascii.eqb_spec c NUL); [contradiction|reflexivity].
  - rewrite andb_true_iff. intros [H1 H2].
    destruct (Ascii.eqb_spec a c) as [E | E]; [now apply Hp in H1|].
    rewrite (IH H2). now destruct (a =? NUL)%char.
Qed.

(** ** The model of the C library *)

Lemma skip_space_app ws t :
  all_chars isspace ws = true ->
  match t with String c _ => isspace c = false | EmptyString => True end ->
  skip_space (ws ++ t) = (String.length ws, t).
Proof.
  intros Hws Ht. induction ws as [|c ws IH]; simpl.
  - destruct t as [|c t]; [reflexivity|]. simpl. now rewrite Ht.
  - simpl in Hws. apply andb_true_iff in Hws as [H1 H2].
    rewrite H1, (IH H2). reflexivity.
Qed.

(** What skip_space leaves is a suffix: a property of all characters
    survives. *)
Lemma skip_space_all p s :
  all_chars p s = true -> all_chars p (snd (skip_space s)) = true.
Proof.
  induction s as [|c s IH]; simpl; [trivial|].
  intros H. destruct (isspace c); [|exact H].
  apply andb_true_iff in H as [_ H]. specialize (IH H).
  destruct (skip_space s). exact IH.
Qed.

Lemma skip_sign_all p s :
  all_chars p s = true -> all_chars p (snd (skip_sign s)) = true.
Proof.
  destruct s as [|c s]; simpl; [trivial|].
  intros H. pose proof H as H'. apply andb_true_iff in H' as [_ H'].
  destruct (c =? "-")%char; [exact H'|].
  destruct (c =? "+")%char; [exact H'|exact H].
Qed.

Lemma skip_sign_app sg t :
  is_sign sg = true ->
  match t with
  | String c _ => c <> "-"%char /\ c <> "+"%char
  | EmptyString => True
  end ->
  skip_sign (sg ++ t) = ((sg =? "-")%string, String.length sg, t).
Proof.
  unfold is_sign. rewrite !orb_true_iff, !String.eqb_eq.
  intros [[-> | ->] | ->] Ht; try reflexivity.
  destruct t as [|c t]; [reflexivity|]. destruct Ht as [H1 H2].
  apply Ascii.eqb_neq in H1, H2. simpl. now rewrite H1, H2.
Qed.

Lemma scan_digits_stop b s acc :
  stops b s = true -> scan_digits b s acc = (acc, 0%nat).
Proof.
  destruct s as [|c s]; [reflexivity|]. unfold stops, valid_digit. simpl.
  destruct (digit_value c); [|reflexivity].
  intros H. apply negb_true_iff in H. now rewrite H.
Qed.

(** A run of digits followed by something that stops the scan. *)
Lemma scan_digits_app b ds t acc :
  all_chars (valid_digit b) ds = true -> stops b t = true ->
  scan_digits b (ds ++ t) acc = (numeral_value b ds acc, String.length ds).
Proof.
  intros Hds Ht. revert acc. induction ds as [|c ds IH]; intros acc; simpl.
  - now apply scan_digits_stop.
  - simpl in Hds. apply andb_true_iff in Hds as [H1 H2].
    unfold valid_digit in H1. destruct (digit_value c) as [d|]; [|discriminate].
    rewrite H1, (IH H2). reflexivity.
Qed.

Lemma numeral_value_app b ds ds' acc :
  all_chars (valid_digit b) ds = true ->
  numeral_value b (ds ++ ds') acc
  = numeral_value b ds' (numeral_value b ds acc).
Proof.
  intros Hds. revert acc. induction ds as [|c ds IH]; intros acc; simpl.
  - reflexivity.
  - simpl in Hds. apply andb_true_iff in Hds as [H1 H2].
    unfold valid_digit in H1. destruct (digit_value c) as [d|]; [|discriminate].
    apply (IH H2).
Qed.

Lemma base_supported_range base :
  base_supported base = true -> base = 0 \/ 2 <= base <= 36.
Proof.
  unfold base_supported.
  rewrite orb_true_iff, andb_true_iff, Z.eqb_eq, !Z.leb_le. tauto.
Qed.

Lemma radix_range base ds :
  base_supported base = true -> 2 <= radix base ds <= 36.
Proof.
  intros H. apply base_supported_range in H. unfold radix.
  destruct (Z.eqb_spec base 0); [destruct (starts_with_zero ds)|]; lia.
Qed.

Lemma is_hex_prefix_inv s :
  is_hex_prefix s = true ->
  exists c1 r, s = String "0" (String c1 r) /\ (c1 = "x" \/ c1 = "X")%char.
Proof.
  destruct s as [|c0 [|c1 [|c2 r]]]; try discriminate. simpl.
  rewrite !andb_true_iff, orb_true_iff, !Ascii.eqb_eq.
  intros [[-> H] _]. eauto.
Qed.

(** No "0x" prefix is seen at the start of a numeral of base at most 16,
    unless the numeral is "0" and an 'x' follows it. *)
Lemma no_hex_prefix b ds t :
  b <= 16 -> ds <> "" ->
  all_chars (valid_digit b) ds = true ->
  (ds = "0" -> match t with
               | String c _ => c <> "x"%char /\ c <> "X"%char
               | EmptyString => True
               end) ->
  is_hex_prefix (ds ++ t) = false.
Proof.
  intros Hb Hne Hds Hx.
  destruct (is_hex_prefix (ds ++ t)) eqn:E; [exfalso|reflexivity].
  apply is_hex_prefix_inv in E as (c1 & r & E & Hc).
  destruct ds as [|c0 [|c1' ds]]; [contradiction| |].
  - simpl in E. injection E as -> ->. specialize (Hx eq_refl).
    simpl in Hx. destruct Hx, Hc; contradiction.
  - simpl in E. injection E as -> -> _.
    simpl in Hds. apply andb_true_iff in Hds as [_ Hds].
    apply andb_true_iff in Hds as [H1 _].
    apply (valid_digit_mono b 16) in H1; [|exact Hb].
    destruct Hc as [-> | ->]; discriminate.
Qed.

Lemma starts_with_zero_app ds t :
  ds <> "" -> starts_with_zero (ds ++ t) = starts_with_zero ds.
Proof. destruct ds; [contradiction|reflexivity]. Qed.

Lemma skip_prefix_numeral base ds t :
  base_supported base = true -> ds <> "" ->
  all_chars (valid_digit (radix base ds)) ds = true ->
  (ds = "0" -> match t with
               | String c _ => c <> "x"%char /\ c <> "X"%char
               | EmptyString => True
               end) ->
  skip_prefix base (ds ++ t) = (radix base ds, 0%nat, ds ++ t).
Proof.
  intros Hb Hne Hds Hx. unfold skip_prefix.
  destruct ((base =? 0) || (base =? 16)) eqn:E.
  - rewrite (no_hex_prefix (radix base ds)); auto.
    + simpl. unfold radix. rewrite starts_with_zero_app by assumption.
      destruct (base =? 0); reflexivity.
    + apply orb_true_iff in E. rewrite !Z.eqb_eq in E. unfold radix.
      destruct E as [-> | ->]; simpl; [destruct (starts_with_zero ds)|]; lia.
  - apply orb_false_iff in E as [E0 _]. simpl. unfold radix. now rewrite E0.
Qed.

(** The subject sequence of: white space, an optional sign, digits of the
    base, and then nothing or something that is no digit of the base. *)
Lemma scan_integer_numeral base ws sg ds t :
  base_supported base = true ->
  all_chars isspace ws = true ->
  is_sign sg = true ->
  ds <> "" ->
  all_chars (valid_digit (radix base ds)) ds = true ->
  stops (radix base ds) t = true ->
  (ds = "0" -> match t with
               | String c _ => c <> "x"%char /\ c <> "X"%char
               | EmptyString => True
               end) ->
  scan_integer (ws ++ sg ++ ds ++ t) base
  = {| sj_neg := (sg =? "-")%string;
       sj_mag := numeral_value (radix base ds) ds 0;
       sj_end := String.length ws + String.length sg + String.length ds |}.
Proof.
  intros Hb Hws Hsg Hne Hds Ht Hx.
  destruct ds as [|c0 ds0] eqn:Eds; [contradiction|]. rewrite <- Eds in *.
  assert (H0 : valid_digit (radix base ds) c0 = true).
  { rewrite Eds in Hds at 2. simpl in Hds.
    now apply andb_true_iff in Hds as [H _]. }
  unfold scan_integer.
  rewrite skip_space_app; [|exact Hws|].
  2:{ unfold is_sign in Hsg. rewrite !orb_true_iff, !String.eqb_eq in Hsg.
      destruct Hsg as [[-> | ->] | ->]; try reflexivity.
      rewrite Eds. simpl. eapply digit_no_space, H0. }
  rewrite skip_sign_app; [|exact Hsg|].
  2:{ rewrite Eds. simpl. destruct (digit_no_sign _ _ H0) as (? & ? & _).
      auto. }
  rewrite skip_prefix_numeral by assumption.
  rewrite scan_digits_app by assumption.
  destruct (Nat.eqb_spec (String.length ds) 0) as [E | _].
  - rewrite Eds in E. discriminate.
  - f_equal. simpl. lia.
Qed.

(** Without a digit of the base anywhere, nothing is converted. *)
Lemma scan_integer_no_digit base s :
  base_supported base = true ->
  all_chars (fun c => negb (valid_digit (radix base "") c)) s = true ->
  sj_end (scan_integer s base) = 0%nat.
Proof.
  intros Hb Hs.
  pose proof (radix_range base "" Hb) as Hr.
  set (p := fun c => negb (valid_digit (radix base "") c)) in *.
  assert (Hz : forall t, all_chars p t = true -> starts_with_zero t = false).
  { intros [|c t]; simpl; [reflexivity|]. intros H.
    apply andb_true_iff in H as [H _].
    destruct (Ascii.eqb_spec c "0") as [-> | _]; [|reflexivity].
    unfold p, valid_digit in H. simpl in H. apply negb_true_iff in H.
    apply Z.ltb_ge in H. lia. }
  unfold scan_integer.
  pose proof (skip_space_all p s Hs) as H1.
  destruct (skip_space s) as [nws s1]. simpl in H1.
  pose proof (skip_sign_all p s1 H1) as H2.
  destruct (skip_sign s1) as [[neg nsg] s2]. simpl in H2.
  assert (Hp : skip_prefix base s2 = (radix base "", 0%nat, s2)).
  { unfold skip_prefix.
    assert (Hh : is_hex_prefix s2 = false).
    { pose proof (Hz s2 H2) as Z2.
      destruct s2 as [|c0 [|c1 [|c2 ?]]]; try reflexivity.
      simpl in Z2 |- *. now rewrite Z2. }
    rewrite Hh, andb_false_r. unfold radix. simpl.
    rewrite (Hz s2 H2). destruct (base =? 0); reflexivity. }
  rewrite Hp.
  rewrite scan_digits_stop; [reflexivity|].
  destruct s2 as [|c t]; [reflexivity|]. simpl in H2 |- *.
  now apply andb_true_iff in H2 as [H _].
Qed.

Lemma strtoll_model_end str base :
  base_supported base = true ->
  sr_end (strtoll_model str base) = Some (sj_end (scan_integer str base)).
Proof.
  intros Hb. unfold strtoll_model. rewrite Hb. simpl.
  repeat match goal with
    | |- context [if ?b then _ else _] => destruct b
    end; reflexivity.
Qed.

Lemma strtoull_model_end str base :
  base_supported base = true ->
  sr_end (strtoull_model str base) = Some (sj_end (scan_integer str base)).
Proof.
  intros Hb. unfold strtoull_model. rewrite Hb. simpl.
  destruct (_ >? _); reflexivity.
Qed.

Lemma strto_model_errno T str base :
  sr_errno (strto_call (L := libc) T str base) = 0 \/
  sr_errno (strto_call (L := libc) T str base) = ERANGE \/
  (sr_errno (strto_call (L := libc) T str base) = EINVAL /\
   base_supported base = false).
Proof.
  unfold strto_call. simpl. unfold strtoull_model, strtoll_model.
  destruct (base_supported base); simpl;
    repeat match goal with
      | |- context [if ?b then _ else _] => destruct b
      end; simpl; auto.
Qed.

Lemma strto_model_end T str base :
  base_supported base = true ->
  sr_end (strto_call (L := libc) T str base)
  = Some (sj_end (scan_integer str base)).
Proof.
  intros Hb. unfold strto_call. simpl.
  destruct (is_unsigned T);
    [now apply strtoull_model_end | now apply strtoll_model_end].
Qed.

(** With an unsupported base the model stores no end pointer. *)
Lemma strto_model_bad_base T str base :
  base_supported base = false ->
  sr_end (strto_call (L := libc) T str base) = None.
Proof.
  intros Hb. unfold strto_call. simpl. unfold strtoull_model, strtoll_model.
  rewrite Hb. now destruct (is_unsigned T).
Qed.

(** ** Decimal text *)

Lemma app_nil_r s : s ++ "" = s.
Proof. induction s as [|c s IH]; simpl; [reflexivity|]. now rewrite IH. Qed.

Lemma app_assoc s t u : (s ++ t) ++ u = s ++ t ++ u.
Proof. induction s as [|c s IH]; simpl; [reflexivity|]. now rewrite IH. Qed.

Lemma format_digits_spec f : forall n acc,
  0 <= n < 2 ^ Z.of_nat (S f) ->
  exists ds,
    format_digits (S f) n acc = ds ++ acc /\
    ds <> "" /\
    all_chars (valid_digit 10) ds = true /\
    (forall a,
       numeral_value 10 ds a = a * 10 ^ Z.of_nat (String.length ds) + n) /\
    starts_with_zero ds = (n =? 0).
Proof.
  induction f as [|f IH]; intros n acc Hn.
  - change (2 ^ Z.of_nat 1) with 2 in Hn.
    exists (String (digit_char (n mod 10)) "").
    assert (E : n mod 10 = n) by (apply Z.mod_small; lia).
    simpl. destruct (Z.ltb_spec n 10); [|lia]. rewrite E.
    repeat split.
    + discriminate.
    + unfold valid_digit. rewrite digit_char_value by lia.
      destruct (Z.ltb_spec n 10); [reflexivity|lia].
    + intros a. rewrite digit_char_value by lia. lia.
    + apply digit_char_zero. lia.
  - assert (P : 2 ^ Z.of_nat (S (S f)) = 2 * 2 ^ Z.of_nat (S f)).
    { rewrite (Nat2Z.inj_succ (S f)). apply Z.pow_succ_r. lia. }
    assert (Hm : 0 <= n mod 10 < 10) by (apply Z.mod_pos_bound; lia).
    change (format_digits (S (S f)) n acc)
      with (if n <? 10 then String (digit_char (n mod 10)) acc
            else format_digits (S f) (n / 10)
                   (String (digit_char (n mod 10)) acc)).
    destruct (Z.ltb_spec n 10) as [Hlt | Hge].
    + exists (String (digit_char (n mod 10)) "").
      assert (E : n mod 10 = n) by (apply Z.mod_small; lia).
      rewrite E. simpl. repeat split.
      * discriminate.
      * unfold valid_digit. rewrite digit_char_value by lia.
        destruct (Z.ltb_spec n 10); [reflexivity|lia].
      * intros a. rewrite digit_char_value by lia. lia.
      * apply digit_char_zero. lia.
    + assert (Hq : 0 <= n / 10 < 2 ^ Z.of_nat (S f)).
      { split; [apply Z.div_pos; lia|].
        apply Z.div_lt_upper_bound; lia. }
      assert (Hq1 : 1 <= n / 10) by (apply Z.div_le_lower_bound; lia).
      destruct (IH (n / 10) (String (digit_char (n mod 10)) acc) Hq)
        as (ds & E & Hne & Hall & Hval & Hz).
      exists (ds ++ String (digit_char (n mod 10)) "").
      rewrite E, app_assoc. simpl. repeat split.
      * destruct ds; [contradiction|discriminate].
      * rewrite all_chars_app, Hall. simpl. unfold valid_digit.
        rewrite digit_char_value by lia.
        destruct (Z.ltb_spec (n mod 10) 10); [reflexivity|lia].
      * intros a. rewrite numeral_value_app by assumption. rewrite Hval.
        simpl. rewrite digit_char_value by lia.
        rewrite length_app. simpl String.length.
        rewrite Nat2Z.inj_add. change (Z.of_nat 1) with 1.
        rewrite Z.pow_add_r by lia. change (10 ^ 1) with 10.
        pose proof (Z.div_mod n 10 ltac:(lia)). nia.
      * rewrite starts_with_zero_app by assumption. rewrite Hz.
        destruct (Z.eqb_spec (n / 10) 0), (Z.eqb_spec n 0);
          reflexivity || lia.
Qed.

Lemma format_unsigned_spec n :
  0 <= n ->
  format_unsigned n <> "" /\
  all_chars (valid_digit 10) (format_unsigned n) = true /\
  numeral_value 10 (format_unsigned n) 0 = n /\
  starts_with_zero (format_unsigned n) = (n =? 0).
Proof.
  intros Hn. unfold format_unsigned.
  assert (Hb : 0 <= n < 2 ^ Z.of_nat (S (Z.to_nat (Z.log2 n)))).
  { rewrite Nat2Z.inj_succ, Z2Nat.id by apply Z.log2_nonneg.
    destruct (Z.eq_dec n 0) as [-> | Hz]; [simpl; lia|].
    pose proof (Z.log2_spec n ltac:(lia)). lia. }
  destruct (format_digits_spec _ n "" Hb) as (ds & E & Hne & Hall & Hval & Hz).
  rewrite E, app_nil_r. repeat split; try assumption.
  rewrite Hval. lia.
Qed.

(** The decimal text of [n] is a numeral of the base that base 0 detects,
    and its value is [n]. *)
Lemma format_unsigned_numeral n :
  0 <= n ->
  format_unsigned n <> "" /\
  all_chars (valid_digit (radix 0 (format_unsigned n))) (format_unsigned n)
  = true /\
  numeral_value (radix 0 (format_unsigned n)) (format_unsigned n) 0 = n /\
  all_chars (valid_digit 10) (format_unsigned n) = true.
Proof.
  intros Hn. destruct (Z.eq_dec n 0) as [-> | Hz].
  - repeat split. discriminate.
  - destruct (format_unsigned_spec n Hn) as (Hne & Hall & Hval & Hs).
    unfold radix. simpl. rewrite Hs.
    destruct (Z.eqb_spec n 0); [contradiction|]. auto.
Qed.

(** What the parser of the model sees in a decimal text. *)
Lemma scan_integer_format v :
  scan_integer (format_decimal v) 0
  = {| sj_neg := v <? 0; sj_mag := Z.abs v;
       sj_end := String.length (format_decimal v) |}.
Proof.
  unfold format_decimal. destruct (Z.ltb_spec v 0) as [Hneg | Hpos].
  - destruct (format_unsigned_numeral (- v) ltac:(lia))
      as (Hne & Hall & Hval & _).
    pose proof (scan_integer_numeral 0 "" "-" (format_unsigned (- v)) ""
                  eq_refl eq_refl eq_refl Hne Hall eq_refl (fun _ => I)) as E.
    rewrite app_nil_r in E. simpl in E. rewrite E, Hval.
    f_equal. lia.
  - destruct (format_unsigned_numeral v Hpos) as (Hne & Hall & Hval & _).
    pose proof (scan_integer_numeral 0 "" "" (format_unsigned v) ""
                  eq_refl eq_refl eq_refl Hne Hall eq_refl (fun _ => I)) as E.
    rewrite app_nil_r in E. simpl in E. rewrite E, Hval.
    f_equal. lia.
Qed.

Lemma strchr_format v : 0 <= v -> strchr (format_decimal v) "-" = None.
Proof.
  intros Hv. unfold format_decimal.
  destruct (Z.ltb_spec v 0); [lia|].
  apply (strchr_absent (valid_digit 10)).
  - intros a Ha. now destruct (digit_no_sign _ _ Ha).
  - discriminate.
  - now destruct (format_unsigned_spec v Hv) as (_ & Hall & _).
Qed.

Lemma strtoll_format v :
  LLONG_MIN <= v <= LLONG_MAX ->
  strtoll_model (format_decimal v) 0
  = {| sr_val := v; sr_end := Some (String.length (format_decimal v));
       sr_errno := 0 |}.
Proof.
  intros Hv. unfold strtoll_model. rewrite scan_integer_format. simpl.
  replace (if v <? 0 then - Z.abs v else Z.abs v) with v
    by (destruct (Z.ltb_spec v 0); lia).
  destruct (Z.ltb_spec v LLONG_MIN); [lia|].
  rewrite Z.gtb_ltb. destruct (Z.ltb_spec LLONG_MAX v); [lia|]. reflexivity.
Qed.

Lemma strtoull_format v :
  0 <= v <= ULLONG_MAX ->
  strtoull_model (format_decimal v) 0
  = {| sr_val := v; sr_end := Some (String.length (format_decimal v));
       sr_errno := 0 |}.
Proof.
  intros Hv. unfold strtoull_model. rewrite scan_integer_format. simpl.
  rewrite Z.gtb_ltb. destruct (Z.ltb_spec ULLONG_MAX (Z.abs v)); [lia|].
  destruct (Z.ltb_spec v 0); [lia|]. f_equal. lia.
Qed.

(** ** The bounds that the macros pass *)

Lemma intmin_eq T : STRTOI_GENERIC_INTMIN T = __STRTOI_GENERIC_INTMIN T.
Proof. destruct T; reflexivity. Qed.

Lemma intmax_eq T : STRTOI_GENERIC_INTMAX T = __STRTOI_GENERIC_INTMAX T.
Proof. destruct T; reflexivity. Qed.

Lemma format_decimal_length v : String.length (format_decimal v) <> 0%nat.
Proof.
  unfold format_decimal. destruct (Z.ltb_spec v 0); [discriminate|].
  destruct (format_unsigned_spec v) as (Hne & _); [assumption|].
  destruct (format_unsigned v); [contradiction|discriminate].
Qed.

(** Unfolds the bounds of a given destination type down to numerals. *)
Ltac bounds :=
  unfold representable in *; rewrite ?intmin_eq, ?intmax_eq in *;
  cbv [__STRTOI_GENERIC_INTMIN __STRTOI_GENERIC_INTMAX
       SCHAR_MIN SCHAR_MAX UCHAR_MAX CHAR_MIN CHAR_MAX SHRT_MIN SHRT_MAX
       USHRT_MAX INT_MIN INT_MAX UINT_MAX LONG_MIN LONG_MAX ULONG_MAX
       LLONG_MIN LLONG_MAX ULLONG_MAX] in *.

(** Within the bounds of a signed destination the range test passes and
    the conversion keeps the value. *)
Lemma signed_accepts T v :
  is_signed T = true -> representable T v ->
  (v <? STRTOI_GENERIC_INTMIN T)
  || ((v >? 0) && (to_unsigned_long_long v >? STRTOI_GENERIC_INTMAX T))
  = false
  /\ convert T v = v.
Proof.
  intros HT Hv.
  assert (Hu : 0 < v -> to_unsigned_long_long v = v).
  { intros Hp. apply wrap_unsigned_id. change (2 ^ 64) with 18446744073709551616.
    destruct T; try discriminate HT; bounds; lia. }
  split.
  - destruct (Z.ltb_spec v (STRTOI_GENERIC_INTMIN T)) as [Hlt | _];
      [unfold representable in Hv; lia|].
    rewrite !Z.gtb_ltb. destruct (Z.ltb_spec 0 v) as [Hp | _]; [|reflexivity].
    rewrite (Hu Hp). simpl.
    destruct (Z.ltb_spec (STRTOI_GENERIC_INTMAX T) v); [|reflexivity].
    unfold representable in Hv; lia.
  - destruct T; try discriminate HT; bounds; simpl;
      apply wrap_signed_id; simpl; lia.
Qed.

(** The same for an unsigned destination, whose value went through a
    [long long]. *)
Lemma unsigned_accepts T v :
  is_unsigned T = true -> representable T v ->
  (to_unsigned_long_long (to_long_long v) >? STRTOI_GENERIC_INTMAX T) = false
  /\ convert T (to_long_long v) = v.
Proof.
  intros HT Hv. unfold to_unsigned_long_long, to_long_long.
  rewrite wrap_unsigned_signed by lia. split.
  - rewrite wrap_unsigned_id.
    + rewrite Z.gtb_ltb. apply Z.ltb_ge. unfold representable in Hv. lia.
    + change (2 ^ 64) with 18446744073709551616.
      destruct T; try discriminate HT; bounds; lia.
  - destruct T; try discriminate HT; bounds; simpl;
      rewrite wrap_unsigned_signed by lia; apply wrap_unsigned_id;
      simpl; lia.
Qed.

(** The bounds that the header passes for a supported type are the
    bounds of the type. *)
Lemma in_type_representable T v :
  supported T = true -> (in_type T v <-> representable T v).
Proof.
  intros HT. destruct T; try discriminate HT; bounds; simpl; lia.
Qed.

(** ** Numbers followed by more text, over the model *)

Lemma is_0x_inv px : is_0x px = true -> px = "0x" \/ px = "0X".
Proof.
  unfold is_0x. rewrite orb_true_iff, !String.eqb_eq. tauto.
Qed.

(** Without a "0x" prefix in sight the digits start at once, in the base
    that [radix] gives. *)
Lemma skip_prefix_plain base s :
  (base = 0 \/ base = 16 -> is_hex_prefix s = false) ->
  skip_prefix base s = (radix base s, 0%nat, s).
Proof.
  intros Hx. unfold skip_prefix, radix.
  destruct (Z.eqb_spec base 0) as [E0 | E0]; simpl.
  - rewrite (Hx (or_introl E0)). reflexivity.
  - destruct (Z.eqb_spec base 16) as [E16 | E16]; simpl; [|reflexivity].
    rewrite (Hx (or_intror E16)). reflexivity.
Qed.

Lemma radix_app base ds t : ds <> "" -> radix base (ds ++ t) = radix base ds.
Proof. intros H. unfold radix. now rewrite starts_with_zero_app. Qed.

(** White space, an optional sign, digits of the base, and then nothing
    or something that is no digit of the base, where the digits are not
    taken for the start of a "0x" prefix. *)
Lemma scan_integer_plain base ws sg ds t :
  all_chars isspace ws = true ->
  is_sign sg = true ->
  ds <> "" ->
  all_chars (valid_digit (radix base ds)) ds = true ->
  stops (radix base ds) t = true ->
  (base = 0 \/ base = 16 -> is_hex_prefix (ds ++ t) = false) ->
  scan_integer (ws ++ sg ++ ds ++ t) base
  = {| sj_neg := (sg =? "-")%string;
       sj_mag := numeral_value (radix base ds) ds 0;
       sj_end := String.length ws + String.length sg + String.length ds |}.
Proof.
  intros Hws Hsg Hne Hds Ht Hx.
  destruct ds as [|c0 ds0] eqn:Eds; [contradiction|]. rewrite <- Eds in *.
  assert (H0 : valid_digit (radix base ds) c0 = true).
  { rewrite Eds in Hds at 2. simpl in Hds.
    now apply andb_true_iff in Hds as [H _]. }
  unfold scan_integer.
  rewrite skip_space_app; [|exact Hws|].
  2:{ unfold is_sign in Hsg. rewrite !orb_true_iff, !String.eqb_eq in Hsg.
      destruct Hsg as [[-> | ->] | ->]; try reflexivity.
      rewrite Eds. simpl. eapply digit_no_space, H0. }
  rewrite skip_sign_app; [|exact Hsg|].
  2:{ rewrite Eds. simpl. destruct (digit_no_sign _ _ H0) as (? & ? & _).
      auto. }
  rewrite skip_prefix_plain by assumption.
  rewrite radix_app by assumption.
  rewrite scan_digits_app by assumption.
  destruct (Nat.eqb_spec (String.length ds) 0) as [E | _].
  - rewrite Eds in E. discriminate.
  - f_equal. simpl. lia.
Qed.

(** White space, an optional sign, "0x", hexadecimal digits, and then
    nothing or something that is no hexadecimal digit, with base 0 or
    16. *)
Lemma scan_integer_hex base ws sg px hs t :
  base = 0 \/ base = 16 ->
  all_chars isspace ws = true ->
  is_sign sg = true ->
  is_0x px = true ->
  hs <> "" ->
  all_chars (valid_digit 16) hs = true ->
  stops 16 t = true ->
  scan_integer (ws ++ sg ++ px ++ hs ++ t) base
  = {| sj_neg := (sg =? "-")%string;
       sj_mag := numeral_value 16 hs 0;
       sj_end := String.length ws + String.length sg + 2
                 + String.length hs |}.
Proof.
  intros Hb Hws Hsg Hpx Hne Hhs Ht.
  destruct hs as [|h hs']; [contradiction|].
  pose proof Hhs as Hh. simpl in Hh. apply andb_true_iff in Hh as [Hh _].
  assert (Hp0 : exists x, px = String "0" (String x "") /\
                          (x = "x" \/ x = "X")%char).
  { destruct (is_0x_inv px Hpx) as [-> | ->]; eauto. }
  destruct Hp0 as (x & -> & Hx).
  unfold scan_integer.
  rewrite skip_space_app; [|exact Hws|].
  2:{ unfold is_sign in Hsg. rewrite !orb_true_iff, !String.eqb_eq in Hsg.
      destruct Hsg as [[-> | ->] | ->]; reflexivity. }
  rewrite skip_sign_app; [|exact Hsg|].
  2:{ simpl. split; discriminate. }
  assert (Ep : skip_prefix base
                 (String "0" (String x "") ++ String h hs' ++ t)
               = (16, 2%nat, String h hs' ++ t)).
  { unfold skip_prefix.
    assert (E1 : (base =? 0) || (base =? 16) = true)
      by (destruct Hb as [-> | ->]; reflexivity).
    assert (E2 : is_hex_prefix
                   (String "0" (String x "") ++ String h hs' ++ t) = true).
    { simpl. rewrite Hh. destruct Hx as [-> | ->]; reflexivity. }
    rewrite E1, E2. reflexivity. }
  rewrite Ep.
  rewrite (scan_digits_app 16 (String h hs') t 0 Hhs Ht).
  change (String.length (String h hs') =? 0)%nat with false.
  cbv iota. reflexivity.
Qed.

(** The digits that the scan takes, and what it leaves. *)
Lemma scan_digits_split b s acc :
  exists ds t,
    s = ds ++ t /\ all_chars (valid_digit b) ds = true /\
    stops b t = true /\
    scan_digits b s acc = (numeral_value b ds acc, String.length ds).
Proof.
  revert acc. induction s as [|c s IH]; intros acc.
  - exists "", "". auto.
  - simpl. destruct (digit_value c) as [d|] eqn:Hd.
    + destruct (d <? b) eqn:Hlt.
      * destruct (IH (acc * b + d)) as (ds & t & E & Hall & Ht & Es).
        exists (String c ds), t. simpl. unfold valid_digit at 1.
        rewrite Hd, Hlt, Hall, Es, <- E. auto.
      * exists "", (String c s). simpl. unfold valid_digit.
        rewrite Hd, Hlt. auto.
    + exists "", (String c s). simpl. unfold valid_digit. rewrite Hd. auto.
Qed.

(** What the prefix step took. *)
Lemma skip_prefix_split base s b npx s3 :
  skip_prefix base s = (b, npx, s3) ->
  (npx = 0%nat /\ s3 = s /\ b = radix base s) \/
  ((base = 0 \/ base = 16) /\ b = 16 /\ npx = 2%nat /\
   exists px, is_0x px = true /\ s = px ++ s3).
Proof.
  unfold skip_prefix.
  destruct (((base =? 0) || (base =? 16)) && is_hex_prefix s) eqn:E.
  - apply andb_true_iff in E as [Eb Eh].
    apply orb_true_iff in Eb. rewrite !Z.eqb_eq in Eb.
    apply is_hex_prefix_inv in Eh as (c1 & r & -> & Hc).
    intros [= <- <- <-]. right. repeat split; auto.
    exists (String "0" (String c1 "")). split; [|reflexivity].
    destruct Hc as [-> | ->]; reflexivity.
  - intros H. left.
    assert (H' : (radix base s, 0%nat, s) = (b, npx, s3)).
    { rewrite <- H. unfold radix. destruct (base =? 0); reflexivity. }
    injection H' as <- <- <-. auto.
Qed.

Lemma no_nul_app s t : no_nul (s ++ t) = no_nul s && no_nul t.
Proof. apply all_chars_app. Qed.

(** In a C string the terminator is read at the end only. *)
Lemma no_nul_char_at t : no_nul t = true -> char_at t 0 = NUL -> t = "".
Proof.
  destruct t as [|c t]; [reflexivity|]. unfold no_nul. simpl.
  intros H E. change (char_at (String c t) 0) with c in E. subst c.
  discriminate.
Qed.

(** For an unsigned destination, a string with a '-' that passes the
    format test is out of range. *)
Lemma minus_out_of_range (L : Libc) T str base res num :
  is_unsigned T = true ->
  is_some (strchr str "-") = true ->
  format_ok str (strto_call (L := L) T str base) ->
  strtoi_base_generic (L := L) T str base res num = Some (- ERANGE, res).
Proof.
  intros HU Hm Hok.
  assert (HT : supported T = true) by (destruct T; (reflexivity || discriminate)).
  assert (He : sr_errno (strto_call (L := L) T str base) = 0 \/
               sr_errno (strto_call (L := L) T str base) = ERANGE).
  { unfold format_ok in Hok.
    destruct (sr_end (strto_call (L := L) T str base)); tauto. }
  destruct He as [He | He].
  - rewrite macro_range_tests by assumption. now rewrite HU, Hm.
  - now apply macro_library_overflow.
Qed.

(** With an end pointer stored, an [errno] other than 0 and [ERANGE]
    fails the first test. *)
Lemma stored_errno_is_einval (L : Libc) T str base res num :
  supported T = true ->
  sr_end (strto_call (L := L) T str base) <> None ->
  sr_errno (strto_call (L := L) T str base) = EINVAL ->
  strtoi_base_generic (L := L) T str base res num = Some (- EINVAL, res).
Proof.
  intros HT Hs He. apply macro_format_error; auto.
  unfold format_ok. destruct (sr_end _); [|tauto].
  rewrite He. intros (_ & _ & [H | H]); discriminate.
Qed.

(** * The claims *)

(** C2 (round trip).  For every supported destination type [T] and every
    value [v] of [T], parsing the decimal text of [v] with base 0 into a
    [T] returns 0 and stores exactly [v]. *)
Theorem decimal_round_trip T v res num :
  supported T = true ->
  in_type T v ->
  strtoi_generic (L := libc) T (format_decimal v) res num = Some (0, v).
Proof.
  intros HT Hin. pose proof (proj1 (in_type_representable T v HT) Hin) as Hv.
  unfold strtoi_generic.
  assert (Hfmt : forall r,
            r = {| sr_val := v;
                   sr_end := Some (String.length (format_decimal v));
                   sr_errno := 0 |} ->
            format_ok (format_decimal v) r /\ sr_errno r = 0 /\ sr_val r = v).
  { intros r ->. unfold format_ok. simpl.
    auto using format_decimal_length, char_at_end. }
  destruct (is_unsigned T) eqn:HU.
  - assert (E : strto_call (L := libc) T (format_decimal v) 0
                = {| sr_val := v;
                     sr_end := Some (String.length (format_decimal v));
                     sr_errno := 0 |}).
    { unfold strto_call. rewrite HU. apply strtoull_format.
      destruct T; try discriminate HU; bounds; lia. }
    destruct (Hfmt _ E) as (Hok & He & Ev).
    rewrite macro_range_tests by assumption. rewrite HU, Ev.
    rewrite strchr_format
      by (destruct T; try discriminate HU; bounds; lia).
    destruct (unsigned_accepts T v HU Hv) as [-> ->]. reflexivity.
  - assert (HS : is_signed T = true) by (unfold is_signed; now rewrite HT, HU).
    assert (E : strto_call (L := libc) T (format_decimal v) 0
                = {| sr_val := v;
                     sr_end := Some (String.length (format_decimal v));
                     sr_errno := 0 |}).
    { unfold strto_call. rewrite HU. apply strtoll_format.
      destruct T; try discriminate HS; bounds; lia. }
    destruct (Hfmt _ E) as (Hok & He & Ev).
    rewrite macro_range_tests by assumption. rewrite HU, Ev.
    destruct (signed_accepts T v HS Hv) as [-> ->]. reflexivity.
Qed.

Lemma decimal_round_trip_witness :
  (supported unsigned_long_long = true /\
   in_type unsigned_long_long 18446744073709551615 /\
   strtoi_generic (L := libc) unsigned_long_long
     (format_decimal 18446744073709551615) 5 7
   = Some (0, 18446744073709551615)) /\
  (supported signed_short = true /\
   in_type signed_short (-32768) /\
   strtoi_generic (L := libc) signed_short (format_decimal (-32768)) 5 7
   = Some (0, -32768)).
Proof.
  assert (HT : supported unsigned_long_long = true) by reflexivity.
  assert (Hv : in_type unsigned_long_long 18446744073709551615)
    by (vm_compute; split; discriminate).
  assert (HT' : supported signed_short = true) by reflexivity.
  assert (Hv' : in_type signed_short (-32768))
    by (vm_compute; split; discriminate).
  exact (conj
           (conj HT (conj Hv
              (decimal_round_trip unsigned_long_long 18446744073709551615
                 5 7 HT Hv)))
           (conj HT' (conj Hv'
              (decimal_round_trip signed_short (-32768) 5 7 HT' Hv')))).
Defined.

Lemma unsigned_supported T : is_unsigned T = true -> supported T = true.
Proof. destruct T; (reflexivity || discriminate). Qed.

Lemma signed_supported T :
  is_signed T = true -> supported T = true /\ is_unsigned T = false.
Proof.
  unfold is_signed. rewrite andb_true_iff, negb_true_iff. tauto.
Qed.

(** A '-' after white space is a '-' that strchr finds. *)
Lemma strchr_after_space ws rest :
  all_chars isspace ws = true ->
  is_some (strchr (ws ++ String "-" rest) "-") = true.
Proof.
  intros Hws. rewrite strchr_app_found; [reflexivity|].
  revert Hws. apply all_chars_weaken.
  intros c Hc. destruct (space_no_sign c Hc) as (H1 & _ & H2).
  apply Ascii.eqb_neq in H1, H2. now rewrite H1, H2.
Qed.

(** After white space and '-', a complete number passes the format test
    of the model. *)
Lemma minus_numeral_format_ok T ws rest base :
  base_supported base = true ->
  all_chars isspace ws = true ->
  numeral base rest ->
  format_ok (ws ++ String "-" rest)
    (strto_call (L := libc) T (ws ++ String "-" rest) base).
Proof.
  intros Hb Hws Hnum. unfold format_ok.
  rewrite strto_model_end by assumption.
  assert (He : sr_errno (strto_call (L := libc) T (ws ++ String "-" rest)
                           base) = 0 \/
               sr_errno (strto_call (L := libc) T (ws ++ String "-" rest)
                           base) = ERANGE).
  { destruct (strto_model_errno T (ws ++ String "-" rest) base)
      as [H | [H | [_ H]]]; auto. congruence. }
  destruct Hnum as [ds Hne Hds | px hs Hb16 Hpx Hne Hhs].
  - assert (Ee : sj_end (scan_integer (ws ++ String "-" ds) base)
                 = (String.length ws + 1 + String.length ds)%nat).
    { replace (ws ++ String "-" ds) with (ws ++ "-" ++ ds ++ "")
        by (now rewrite app_nil_r).
      rewrite scan_integer_numeral; auto. }
    rewrite Ee.
    split; [lia|]. split; [|exact He].
    rewrite <- Nat.add_assoc, char_at_app.
    apply (char_at_end (String "-" ds)).
  - assert (Ee : sj_end (scan_integer (ws ++ String "-" (px ++ hs)) base)
                 = (String.length ws + 1 + 2 + String.length hs)%nat).
    { replace (ws ++ String "-" (px ++ hs))
        with (ws ++ "-" ++ px ++ hs ++ "") by (now rewrite app_nil_r).
      rewrite scan_integer_hex; auto. }
    rewrite Ee.
    split; [lia|]. split; [|exact He].
    replace (String.length ws + 1 + 2 + String.length hs)%nat
      with (String.length ws + String.length (String "-" (px ++ hs)))%nat.
    + rewrite char_at_app. apply char_at_end.
    + destruct (is_0x_inv px Hpx) as [-> | ->]; simpl; lia.
Qed.

(** After white space and '-', only a complete number passes the format
    test of the model. *)
Lemma minus_format_ok_numeral T ws rest base :
  base_supported base = true ->
  all_chars isspace ws = true ->
  no_nul rest = true ->
  format_ok (ws ++ String "-" rest)
    (strto_call (L := libc) T (ws ++ String "-" rest) base) ->
  numeral base rest.
Proof.
  intros Hb Hws Hnn. unfold format_ok.
  rewrite strto_model_end by assumption.
  unfold scan_integer.
  rewrite (skip_space_app ws (String "-" rest) Hws eq_refl).
  change (skip_sign (String "-" rest)) with (true, 1%nat, rest).
  cbv beta iota zeta.
  destruct (skip_prefix base rest) as [[b npx] s3] eqn:Ep.
  destruct (scan_digits_split b s3 0) as (ds & t & Es3 & Hall & Ht & Esc).
  rewrite Esc.
  destruct (Nat.eqb_spec (String.length ds) 0) as [E0 | E0];
    [simpl; tauto|].
  simpl sj_end. intros (_ & Hn & _).
  assert (Hds : ds <> "") by (destruct ds; [contradiction|discriminate]).
  apply skip_prefix_split in Ep
    as [(-> & -> & ->) | (Hb16 & -> & -> & px & Hpx & Erest)].
  - subst rest.
    assert (Et : t = "").
    { apply no_nul_char_at.
      - rewrite no_nul_app in Hnn. now apply andb_true_iff in Hnn.
      - rewrite <- Hn.
        replace (String.length ws + 1 + 0 + String.length ds)%nat
          with (String.length ws
                + (String.length (String "-" ds) + 0))%nat
          by (simpl; lia).
        rewrite char_at_app.
        change (String "-" (ds ++ t)) with (String "-" ds ++ t).
        now rewrite char_at_app. }
    subst t. rewrite app_nil_r in *. now apply numeral_digits.
  - subst rest s3.
    assert (Et : t = "").
    { apply no_nul_char_at.
      - rewrite !no_nul_app in Hnn.
        apply andb_true_iff in Hnn as [_ Hnn].
        now apply andb_true_iff in Hnn.
      - rewrite <- Hn.
        replace (String.length ws + 1 + 2 + String.length ds)%nat
          with (String.length ws
                + (String.length (String "-" (px ++ ds)) + 0))%nat.
        + rewrite char_at_app.
          replace (String "-" (px ++ ds ++ t))
            with (String "-" (px ++ ds) ++ t)
            by (simpl; now rewrite app_assoc).
          now rewrite char_at_app.
        + destruct (is_0x_inv px Hpx) as [-> | ->]; simpl;
            rewrite ?length_app; simpl; lia. }
    subst t. rewrite app_nil_r. now apply numeral_hex.
Qed.

(** C1, as the code has it.  For an unsigned destination and a string
    that starts, after optional white space, with '-', no call returns a
    success: with any C library, a call that returns at all returns
    -EINVAL or -ERANGE and leaves the destination alone.  With a
    supported base the call returns -ERANGE when the '-' is followed by a
    complete number (one or more digits of the base, or with base 0 or
    16 "0x" and hexadecimal digits, up to the end of the string), and
    -EINVAL when it is followed by anything else. *)
Theorem unsigned_rejects_minus T ws rest base res num :
  is_unsigned T = true ->
  all_chars isspace ws = true ->
  (forall (L : Libc) out,
     strtoi_base_generic (L := L) T (ws ++ String "-" rest) base res num
     = Some out ->
     out = (- EINVAL, res) \/ out = (- ERANGE, res)) /\
  (base_supported base = true ->
   numeral base rest ->
   strtoi_base_generic (L := libc) T (ws ++ String "-" rest) base res num
   = Some (- ERANGE, res)) /\
  (base_supported base = true ->
   no_nul rest = true ->
   ~ numeral base rest ->
   strtoi_base_generic (L := libc) T (ws ++ String "-" rest) base res num
   = Some (- EINVAL, res)).
Proof.
  intros HU Hws.
  pose proof (unsigned_supported T HU) as HT.
  pose proof (strchr_after_space ws rest Hws) as Hm.
  split; [|split].
  - intros L out E.
    destruct (macro_cases (L := L) T (ws ++ String "-" rest) base res num)
      as [(H & _) | [(_ & _ & E') | [(_ & _ & _ & E') | (_ & Hok & _)]]].
    + congruence.
    + congruence.
    + left. congruence.
    + right.
      rewrite (minus_out_of_range L T _ base res num HU Hm Hok) in E.
      congruence.
  - intros Hb Hnum. apply minus_out_of_range; auto.
    now apply minus_numeral_format_ok.
  - intros Hb Hnn Hnot. apply macro_format_error; auto.
    + rewrite strto_model_end by assumption. discriminate.
    + intros Hok. apply Hnot.
      now apply (minus_format_ok_numeral T ws rest base).
Qed.

Lemma unsigned_rejects_minus_witness :
  is_unsigned unsigned_int = true /\
  all_chars isspace " " = true /\
  strtoi_base_generic (L := libc) unsigned_int " -17" 10 5 7
  = Some (- ERANGE, 5) /\
  strtoi_base_generic (L := libc) unsigned_int " -1 7" 10 5 7
  = Some (- EINVAL, 5).
Proof.
  assert (HU : is_unsigned unsigned_int = true) by reflexivity.
  assert (Hws : all_chars isspace " " = true) by reflexivity.
  refine (conj HU (conj Hws (conj _ _))).
  - apply (proj1 (proj2
             (unsigned_rejects_minus unsigned_int " " "17" 10 5 7 HU Hws)));
      [reflexivity|].
    apply numeral_digits; [discriminate | reflexivity].
  - apply (proj2 (proj2
             (unsigned_rejects_minus unsigned_int " " "1 7" 10 5 7 HU Hws)));
      [reflexivity | reflexivity |].
    intros Hn. inversion Hn as [ds Hne Hds E | px hs Hb Hpx Hne Hhs E].
    + discriminate Hds.
    + destruct Hb; discriminate.
Defined.

(** C1 as stated fails: a '-' that no digit follows, parsed into an
    unsigned destination, is an invalid format (-EINVAL), not out of
    range (-ERANGE); so is a '-' followed by text that is not a number. *)
Lemma minus_alone_is_invalid_format :
  strtoi_generic (L := libc) unsigned_int "-" 5 7 = Some (- EINVAL, 5) /\
  strtoi_base_generic (L := libc) unsigned_int "-" 10 5 7
  = Some (- EINVAL, 5) /\
  strtoi_generic (L := libc) unsigned_int "-12a" 5 7 = Some (- EINVAL, 5) /\
  - EINVAL <> - ERANGE.
Proof. repeat split; (reflexivity || discriminate). Qed.

(** C3, what the code does.  With the C library as modelled, a call with
    a supported destination type and a base outside {0} and [2, 36] has no
    defined behaviour, whatever the text: the library stores no end
    pointer, and the first test after the call compares and dereferences
    [endptr], which was declared without a value, before it looks at
    [errno].  No unsupported-base error comes back. *)
Theorem unsupported_base_is_undefined T str base res num :
  supported T = true ->
  base_supported base = false ->
  strtoi_base_generic (L := libc) T str base res num = None.
Proof.
  intros HT Hb. apply macro_undefined; [exact HT|].
  now apply strto_model_bad_base.
Qed.

Lemma unsupported_base_is_undefined_witness :
  supported signed_int = true /\
  base_supported 37 = false /\
  strtoi_base_generic (L := libc) signed_int "42" 37 5 7 = None.
Proof.
  assert (HT : supported signed_int = true) by reflexivity.
  assert (Hb : base_supported 37 = false) by reflexivity.
  exact (conj HT (conj Hb
           (unsupported_base_is_undefined signed_int "42" 37 5 7 HT Hb))).
Defined.

(** C4.  "255" into an unsigned char gives 255 and "256" is out of range;
    "-128" into a signed char gives -128 and "-129" is out of range; "127"
    gives 127 and "128" is out of range.  With base 0 and with base 10. *)
Theorem eight_bit_boundaries res num :
  strtoi_generic (L := libc) unsigned_char "255" res num = Some (0, 255) /\
  strtoi_generic (L := libc) unsigned_char "256" res num
  = Some (- ERANGE, res) /\
  strtoi_generic (L := libc) signed_char "-128" res num = Some (0, -128) /\
  strtoi_generic (L := libc) signed_char "-129" res num
  = Some (- ERANGE, res) /\
  strtoi_generic (L := libc) signed_char "127" res num = Some (0, 127) /\
  strtoi_generic (L := libc) signed_char "128" res num
  = Some (- ERANGE, res) /\
  strtoi_base_generic (L := libc) unsigned_char "255" 10 res num
  = Some (0, 255) /\
  strtoi_base_generic (L := libc) unsigned_char "256" 10 res num
  = Some (- ERANGE, res) /\
  strtoi_base_generic (L := libc) signed_char "-128" 10 res num
  = Some (0, -128) /\
  strtoi_base_generic (L := libc) signed_char "-129" 10 res num
  = Some (- ERANGE, res) /\
  strtoi_base_generic (L := libc) signed_char "127" 10 res num
  = Some (0, 127) /\
  strtoi_base_generic (L := libc) signed_char "128" 10 res num
  = Some (- ERANGE, res).
Proof. repeat split; reflexivity. Qed.

(** C5.  For every supported destination type and every supported base,
    a badly formatted input (the empty string, white space only, no digit
    of the base, or a number followed by a character that is no digit of
    its base) returns -EINVAL and leaves the destination alone: a valid
    prefix is never truncated into a success. *)
Theorem bad_format_is_rejected T str base res num :
  supported T = true ->
  base_supported base = true ->
  badly_formatted base str ->
  strtoi_base_generic (L := libc) T str base res num = Some (- EINVAL, res).
Proof.
  intros HT Hb Hbad.
  apply macro_format_error; [exact HT| |].
  { rewrite strto_model_end by assumption. discriminate. }
  unfold format_ok. rewrite strto_model_end by assumption.
  intros (H0 & Hn & _).
  assert (Hnd : forall s,
            all_chars (fun c => negb (valid_digit (radix base "") c)) s = true
            -> s = str -> False).
  { intros s Hs ->. apply H0. now apply scan_integer_no_digit. }
  destruct Hbad as [| s Hs | s Hs
                    | ws sg ds c rest Hws Hsg Hne Hds Hc Hnul Hx
                    | ws sg px hs c rest Hb16 Hws Hsg Hpx Hne Hhs Hc Hnul].
  - now apply (Hnd "").
  - apply (Hnd s); [|reflexivity].
    apply (all_chars_weaken isspace); [|exact Hs].
    intros a Ha. now rewrite (space_no_digit a _ Ha).
  - now apply (Hnd s).
  - rewrite scan_integer_plain in Hn; auto.
    + simpl in Hn.
      rewrite <- Nat.add_assoc, char_at_app in Hn.
      rewrite char_at_app in Hn.
      rewrite <- (Nat.add_0_r (String.length ds)), char_at_app in Hn.
      contradiction.
    + simpl. now rewrite Hc.
  - rewrite scan_integer_hex in Hn; auto.
    + simpl in Hn.
      replace (String.length ws + String.length sg + 2 + String.length hs)%nat
        with (String.length ws
              + (String.length sg
                 + (String.length px + (String.length hs + 0))))%nat in Hn
        by (destruct (is_0x_inv px Hpx) as [-> | ->]; simpl; lia).
      rewrite !char_at_app in Hn. contradiction.
    + simpl. now rewrite Hc.
Qed.

Lemma bad_format_is_rejected_witness :
  (supported signed_int = true /\
   base_supported 0 = true /\
   badly_formatted 0 "123abc" /\
   strtoi_base_generic (L := libc) signed_int "123abc" 0 5 7
   = Some (- EINVAL, 5)) /\
  (badly_formatted 0 "0x1Fg" /\
   strtoi_base_generic (L := libc) signed_int "0x1Fg" 0 5 7
   = Some (- EINVAL, 5)) /\
  (badly_formatted 10 "0x5" /\
   strtoi_base_generic (L := libc) signed_int "0x5" 10 5 7
   = Some (- EINVAL, 5)).
Proof.
  assert (HT : supported signed_int = true) by reflexivity.
  assert (Hb0 : base_supported 0 = true) by reflexivity.
  assert (Hb10 : base_supported 10 = true) by reflexivity.
  assert (H1 : badly_formatted 0 "123abc").
  { apply (bad_trailing 0 "" "" "123" "a" "bc");
      try reflexivity; try discriminate. }
  assert (H2 : badly_formatted 0 "0x1Fg").
  { apply (bad_trailing_hex 0 "" "" "0x" "1F" "g" "");
      try reflexivity; try discriminate. now left. }
  assert (H3 : badly_formatted 10 "0x5").
  { apply (bad_trailing 10 "" "" "0" "x" "5");
      try reflexivity; try discriminate. intros [E | E]; discriminate E. }
  exact (conj
           (conj HT (conj Hb0 (conj H1
              (bad_format_is_rejected signed_int "123abc" 0 5 7 HT Hb0 H1))))
           (conj
              (conj H2
                 (bad_format_is_rejected signed_int "0x1Fg" 0 5 7 HT Hb0 H2))
              (conj H3
                 (bad_format_is_rejected signed_int "0x5" 10 5 7 HT Hb10
                    H3)))).
Defined.




(** C7.  When the type of the destination is none of the ten types that
    the dispatch names, the call returns -ENOTSUP and leaves the
    destination alone.  No parsing takes place: the result is the same for
    every string, every base, and every C library. *)
Theorem unsupported_type_is_immediate
    (L L' : Libc) T str str' base base' res num num' :
  supported T = false ->
  strtoi_base_generic (L := L) T str base res num = Some (- ENOTSUP, res) /\
  strtoi_base_generic (L := L) T str base res num
  = strtoi_base_generic (L := L') T str' base' res num'.
Proof.
  intros HT. now rewrite !macro_unsupported_type.
Qed.

Lemma unsupported_type_is_immediate_witness :
  supported (other_type Z.abs) = false /\
  strtoi_base_generic (L := libc) (other_type Z.abs) "12" 10 5 7
  = Some (- ENOTSUP, 5).
Proof.
  assert (HT : supported (other_type Z.abs) = false) by reflexivity.
  exact (conj HT
           (proj1 (unsupported_type_is_immediate libc libc
                     (other_type Z.abs) "12" "" 10 0 5 7 7 HT))).
Defined.

(** What the signed range test decides, for a value that fits a
    [long long]: it fails exactly for the values outside the bounds of the
    destination. *)
Lemma signed_test_is_range_test T v :
  is_signed T = true ->
  LLONG_MIN <= v <= LLONG_MAX ->
  (v < STRTOI_GENERIC_INTMIN T \/
   (v > 0 /\ to_unsigned_long_long v > STRTOI_GENERIC_INTMAX T))
  <-> ~ representable T v.
Proof.
  intros HT Hv.
  assert (Hu : 0 < v -> to_unsigned_long_long v = v).
  { intros Hp. apply wrap_unsigned_id.
    change (2 ^ 64) with 18446744073709551616. bounds. lia. }
  assert (Hmax : 0 <= STRTOI_GENERIC_INTMAX T)
    by (destruct T; try discriminate HT; bounds; lia).
  unfold representable. split.
  - intros [H | [Hp H]]; [lia|]. rewrite Hu in H; lia.
  - intros H.
    destruct (Z_lt_le_dec v (STRTOI_GENERIC_INTMIN T)); [now left|].
    right. split; [lia|]. rewrite Hu; lia.
Qed.

(** C8, as the code has it.  For a signed destination type and a call
    that passes the format test, the call returns -ERANGE exactly when the
    library reported an overflow of the 64-bit parser, or the 64-bit value
    is less than the minimum of the destination, or it is positive and,
    compared as unsigned 64-bit values, exceeds the maximum; otherwise the
    value is accepted: the call returns 0 and stores the value converted
    to the destination type.  For a value that the library did not clamp,
    that test fails exactly for the values outside the bounds of the
    destination, and the conversion of an accepted value keeps it. *)
Theorem signed_range_check (L : Libc) T str base res num :
  is_signed T = true ->
  format_ok str (strtoll (Libc := L) str base) ->
  (strtoi_base_generic (L := L) T str base res num = Some (- ERANGE, res)
   <-> sr_errno (strtoll (Libc := L) str base) = ERANGE \/
       sr_val (strtoll (Libc := L) str base) < STRTOI_GENERIC_INTMIN T \/
       (sr_val (strtoll (Libc := L) str base) > 0 /\
        to_unsigned_long_long (sr_val (strtoll (Libc := L) str base))
        > STRTOI_GENERIC_INTMAX T)) /\
  (returned (strtoi_base_generic (L := L) T str base res num)
   <> Some (- ERANGE) ->
   strtoi_base_generic (L := L) T str base res num
   = Some (0, convert T (sr_val (strtoll (Libc := L) str base)))) /\
  (sr_errno (strtoll (Libc := L) str base) = 0 ->
   LLONG_MIN <= sr_val (strtoll (Libc := L) str base) <= LLONG_MAX ->
   (strtoi_base_generic (L := L) T str base res num = Some (- ERANGE, res)
    <-> ~ representable T (sr_val (strtoll (Libc := L) str base))) /\
   (returned (strtoi_base_generic (L := L) T str base res num)
    <> Some (- ERANGE) ->
    strtoi_base_generic (L := L) T str base res num
    = Some (0, sr_val (strtoll (Libc := L) str base)))).
Proof.
  intros HS Hok.
  destruct (signed_supported T HS) as [HT HU].
  assert (Ecall : strto_call (L := L) T str base = strtoll str base)
    by (unfold strto_call; now rewrite HU).
  set (v := sr_val (strtoll str base)) in *.
  set (cond := (v <? STRTOI_GENERIC_INTMIN T)
               || ((v >? 0)
                   && (to_unsigned_long_long v >? STRTOI_GENERIC_INTMAX T))).
  assert (Hcond : cond = true <->
            v < STRTOI_GENERIC_INTMIN T \/
            (v > 0 /\ to_unsigned_long_long v > STRTOI_GENERIC_INTMAX T)).
  { unfold cond. rewrite orb_true_iff, andb_true_iff, !Z.gtb_ltb, !Z.ltb_lt.
    lia. }
  assert (Hrun : sr_errno (strtoll str base) = 0 ->
            strtoi_base_generic (L := L) T str base res num
            = Some (if cond then (- ERANGE, res) else (0, convert T v))).
  { intros He. rewrite macro_range_tests; rewrite ?Ecall; auto.
    now rewrite HU. }
  assert (Hovf : sr_errno (strtoll str base) = ERANGE ->
            strtoi_base_generic (L := L) T str base res num
            = Some (- ERANGE, res)).
  { intros He. apply macro_library_overflow; rewrite ?Ecall; auto. }
  assert (He : sr_errno (strtoll str base) = 0 \/
               sr_errno (strtoll str base) = ERANGE).
  { unfold format_ok in Hok. destruct (sr_end (strtoll str base)); tauto. }
  assert (Hmain :
            (strtoi_base_generic (L := L) T str base res num
             = Some (- ERANGE, res)
             <-> sr_errno (strtoll str base) = ERANGE \/ cond = true) /\
            (returned (strtoi_base_generic (L := L) T str base res num)
             <> Some (- ERANGE) ->
             strtoi_base_generic (L := L) T str base res num
             = Some (0, convert T v))).
  { destruct He as [He | He].
    - rewrite (Hrun He). destruct cond; simpl; split.
      + tauto.
      + intros H. now contradiction H.
      + split; [discriminate|]. intros [H | H]; [|discriminate].
        rewrite He in H. discriminate.
      + reflexivity.
    - rewrite (Hovf He). simpl. split; [tauto|].
      intros H. now contradiction H. }
  destruct Hmain as [Hiff Hacc].
  split; [|split].
  - rewrite Hiff, Hcond. reflexivity.
  - exact Hacc.
  - intros He0 Hv. split.
    + rewrite Hiff, Hcond, (signed_test_is_range_test T v HS Hv).
      split; [|tauto]. intros [H | H]; [|exact H].
      rewrite He0 in H. discriminate.
    + intros Hne. rewrite (Hacc Hne). do 2 f_equal.
      destruct (signed_accepts T v HS) as [_ E]; [|exact E].
      destruct (signed_test_is_range_test T v HS Hv) as [_ Hr].
      assert (Hne' : strtoi_base_generic (L := L) T str base res num
                     <> Some (- ERANGE, res)).
      { intros E. rewrite E in Hne. now apply Hne. }
      unfold representable.
      destruct (Z_lt_le_dec v (STRTOI_GENERIC_INTMIN T)) as [Hlo | Hlo].
      { exfalso. apply Hne'. apply Hiff. right. apply Hcond. now left. }
      destruct (Z_lt_le_dec (STRTOI_GENERIC_INTMAX T) v) as [Hhi | Hhi];
        [|lia].
      exfalso. apply Hne'. apply Hiff. right. apply Hcond. apply Hr.
      unfold representable. lia.
Qed.

Lemma signed_range_check_witness :
  is_signed signed_char = true /\
  format_ok "128" (strtoll (Libc := libc) "128" 10) /\
  strtoi_base_generic (L := libc) signed_char "128" 10 5 7
  = Some (- ERANGE, 5).
Proof.
  assert (HS : is_signed signed_char = true) by reflexivity.
  assert (Hok : format_ok "128" (strtoll (Libc := libc) "128" 10)).
  { split; [discriminate | split; [reflexivity | left; reflexivity]]. }
  refine (conj HS (conj Hok _)).
  apply (proj1 (signed_range_check libc signed_char "128" 10 5 7 HS Hok)).
  right. right. split; reflexivity.
Defined.

(** C8 as stated fails: "9223372036854775808" does not fit a [long long];
    the library clamps it to [LLONG_MAX] and reports the overflow, and the
    call into a [long long] returns -ERANGE although the 64-bit value is
    neither below the minimum nor above the maximum of the destination. *)
Lemma library_overflow_is_out_of_range :
  strtoi_base_generic (L := libc) signed_long_long "9223372036854775808" 10
    5 7 = Some (- ERANGE, 5) /\
  sr_val (strtoll (Libc := libc) "9223372036854775808" 10) = LLONG_MAX /\
  ~ (sr_val (strtoll (Libc := libc) "9223372036854775808" 10)
     < STRTOI_GENERIC_INTMIN signed_long_long \/
     (sr_val (strtoll (Libc := libc) "9223372036854775808" 10) > 0 /\
      to_unsigned_long_long
        (sr_val (strtoll (Libc := libc) "9223372036854775808" 10))
      > STRTOI_GENERIC_INTMAX signed_long_long)).
Proof.
  split; [reflexivity|]. split; [reflexivity|].
  intros [H | [_ H]]; vm_compute in H; discriminate.
Qed.

(** C9.  A call that returns a non-zero value leaves [*res] as it was;
    so does the function with [*num].  A store happens only together with
    the return value 0. *)
Theorem error_leaves_destination (L : Libc) T str base res num :
  (forall ret,
     returned (strtoi_base_generic (L := L) T str base res num) = Some ret ->
     ret <> 0 ->
     stored (strtoi_base_generic (L := L) T str base res num) = Some res) /\
  (forall ret,
     returned (strtoi_generic_func (L := L) str (STRTOI_GENERIC_INTMIN T)
                 (STRTOI_GENERIC_INTMAX T) (STRTOI_GENERIC_TYPENAME T)
                 base num) = Some ret ->
     ret <> 0 ->
     stored (strtoi_generic_func (L := L) str (STRTOI_GENERIC_INTMIN T)
               (STRTOI_GENERIC_INTMAX T) (STRTOI_GENERIC_TYPENAME T)
               base num) = Some num).
Proof.
  rewrite macro_of_func.
  destruct (func_outcomes (L := L) str (STRTOI_GENERIC_INTMIN T)
              (STRTOI_GENERIC_INTMAX T) (STRTOI_GENERIC_TYPENAME T)
              base num) as [E | [E | [E | [E | [v E]]]]]; cbv zeta in E;
    rewrite E; simpl; split; intros ret [= <-] H;
    reflexivity || (now contradiction H).
Qed.

Lemma error_leaves_destination_witness :
  returned (strtoi_base_generic (L := libc) unsigned_char "256" 10 5 7)
  = Some (- ERANGE) /\
  - ERANGE <> 0 /\
  stored (strtoi_base_generic (L := libc) unsigned_char "256" 10 5 7)
  = Some 5.
Proof.
  assert (E : returned (strtoi_base_generic (L := libc) unsigned_char "256"
                          10 5 7) = Some (- ERANGE)) by reflexivity.
  assert (H : - ERANGE <> 0) by discriminate.
  exact (conj E (conj H
           (proj1 (error_leaves_destination libc unsigned_char "256" 10 5 7)
              (- ERANGE) E H))).
Defined.

(** C10.  Parsing into a plain [char] returns -ENOTSUP for every string
    and base, with any C library: the dispatch resolves plain [char] to
    [STRTOI_GENERIC_TYPENAME_OTHER], although the macros for the minimum
    and the maximum do know the type ([CHAR_MIN] and [CHAR_MAX]). *)
Theorem plain_char_is_unsupported (L : Libc) str base res num :
  strtoi_base_generic (L := L) plain_char str base res num
  = Some (- ENOTSUP, res) /\
  STRTOI_GENERIC_TYPENAME plain_char = STRTOI_GENERIC_TYPENAME_OTHER /\
  STRTOI_GENERIC_INTMIN plain_char = CHAR_MIN /\
  STRTOI_GENERIC_INTMAX plain_char = CHAR_MAX.
Proof. repeat split. Qed.

(** * Further properties of the header *)

(** ** Success, for any C library *)

Lemma unsigned_min_zero T :
  is_unsigned T = true -> STRTOI_GENERIC_INTMIN T = 0.
Proof. destruct T; (reflexivity || discriminate). Qed.

Lemma unsigned_max_bound T :
  is_unsigned T = true -> 0 <= STRTOI_GENERIC_INTMAX T <= ULLONG_MAX.
Proof. destruct T; try discriminate; intros _; bounds; lia. Qed.

Lemma signed_bounds T :
  is_signed T = true ->
  LLONG_MIN <= STRTOI_GENERIC_INTMIN T /\
  STRTOI_GENERIC_INTMIN T < 0 /\
  0 < STRTOI_GENERIC_INTMAX T <= LLONG_MAX.
Proof. destruct T; try discriminate; intros _; bounds; lia. Qed.

Lemma u64_of_long_long u :
  0 <= u <= ULLONG_MAX -> to_unsigned_long_long (to_long_long u) = u.
Proof.
  intros Hu. unfold to_unsigned_long_long, to_long_long.
  rewrite wrap_unsigned_signed by lia. apply wrap_unsigned_id.
  change (2 ^ 64) with 18446744073709551616. unfold ULLONG_MAX in Hu. lia.
Qed.

(** The call succeeds with [v] exactly when the library call passes the
    format test without an error, [v] is the value it returned, [v] lies
    within the bounds of the destination and, for an unsigned destination,
    the string holds no '-'. *)
Lemma macro_success (L : Libc) T str base res num v :
  well_ranged L ->
  supported T = true ->
  strtoi_base_generic (L := L) T str base res num = Some (0, v)
  <-> format_ok str (strto_call (L := L) T str base) /\
      sr_errno (strto_call (L := L) T str base) = 0 /\
      v = sr_val (strto_call (L := L) T str base) /\
      representable T v /\
      (is_unsigned T = true -> strchr str "-" = None).
Proof.
  intros HW HT.
  destruct (format_ok_dec str (strto_call (L := L) T str base)) as [Hok | Hbad].
  2:{ split; [|tauto]. intros E. exfalso.
      destruct (macro_cases (L := L) T str base res num)
        as [(H & _) | [(_ & _ & E') | [(_ & _ & _ & E') | (_ & Hok & _)]]];
        try congruence; try contradiction.
      rewrite E' in E. discriminate. }
  assert (Herr : sr_errno (strto_call (L := L) T str base) = 0 \/
                 sr_errno (strto_call (L := L) T str base) = ERANGE).
  { unfold format_ok in Hok.
    destruct (sr_end (strto_call (L := L) T str base)); tauto. }
  destruct Herr as [He | He].
  2:{ rewrite macro_library_overflow by assumption.
      split; [discriminate|]. intros (_ & E & _). rewrite He in E.
      discriminate. }
  rewrite macro_range_tests by assumption.
  destruct (is_unsigned T) eqn:HU.
  - set (u := sr_val (strto_call (L := L) T str base)) in *.
    assert (Hu : 0 <= u <= ULLONG_MAX).
    { unfold u, strto_call. rewrite HU. apply HW. }
    rewrite (u64_of_long_long u Hu).
    pose proof (unsigned_min_zero T HU) as Hmin.
    destruct (strchr str "-") as [n|] eqn:Hs; simpl.
    { split; [discriminate|]. intros (_ & _ & _ & _ & H).
      specialize (H eq_refl). discriminate. }
    rewrite Z.gtb_ltb.
    destruct (Z.ltb_spec (STRTOI_GENERIC_INTMAX T) u) as [Hgt | Hle].
    + split; [discriminate|]. intros (_ & _ & -> & [_ H] & _). lia.
    + assert (Hr : representable T u) by (unfold representable; lia).
      destruct (unsigned_accepts T u HU Hr) as [_ ->].
      split.
      * intros E. injection E as <-. auto.
      * intros (_ & _ & -> & _). reflexivity.
  - set (s := sr_val (strto_call (L := L) T str base)) in *.
    assert (HS : is_signed T = true) by (unfold is_signed; now rewrite HT, HU).
    assert (Hs : LLONG_MIN <= s <= LLONG_MAX).
    { unfold s, strto_call. rewrite HU. apply HW. }
    pose proof (signed_test_is_range_test T s HS Hs) as Ht.
    destruct ((s <? STRTOI_GENERIC_INTMIN T)
              || ((s >? 0)
                  && (to_unsigned_long_long s >? STRTOI_GENERIC_INTMAX T)))
      eqn:Ec.
    + split; [discriminate|]. intros (_ & _ & -> & Hr & _).
      exfalso. apply (proj1 Ht); [|exact Hr].
      apply orb_true_iff in Ec. rewrite andb_true_iff, !Z.gtb_ltb in Ec.
      rewrite !Z.ltb_lt in Ec. lia.
    + assert (Hr : representable T s).
      { destruct (Z_le_dec (STRTOI_GENERIC_INTMIN T) s) as [Hlo | Hlo].
        - destruct (Z_le_dec s (STRTOI_GENERIC_INTMAX T)) as [Hhi | Hhi];
            [unfold representable; lia|].
          exfalso.
          assert (Hn' : ~ representable T s) by (unfold representable; lia).
          apply Ht in Hn'. apply orb_false_iff in Ec as [E1 E2].
          apply Z.ltb_ge in E1. apply andb_false_iff in E2.
          rewrite !Z.gtb_ltb, !Z.ltb_ge in E2. lia.
        - exfalso. apply orb_false_iff in Ec as [E1 _].
          apply Z.ltb_ge in E1. lia. }
      destruct (signed_accepts T s HS Hr) as [_ ->].
      split.
      * intros E. injection E as <-. repeat split; auto; try apply Hr.
        discriminate.
      * intros (_ & _ & -> & _). reflexivity.
Qed.

(** X1.  With a C library that returns values of its return types, a call
    returns 0 exactly when the destination type is supported, the library
    call passes the format test and reports no error, the value that the
    library returned lies within the bounds of the destination type and,
    for an unsigned destination, the string holds no '-' anywhere.  The
    value stored is then the value that the library returned, unchanged
    by the conversions to [long long] and to the destination type. *)
Theorem success_is_exact (L : Libc) T str base res num :
  well_ranged L ->
  (returned (strtoi_base_generic (L := L) T str base res num) = Some 0
   <-> supported T = true /\
       format_ok str (strto_call (L := L) T str base) /\
       sr_errno (strto_call (L := L) T str base) = 0 /\
       representable T (sr_val (strto_call (L := L) T str base)) /\
       (is_unsigned T = true -> strchr str "-" = None)) /\
  (returned (strtoi_base_generic (L := L) T str base res num) = Some 0 ->
   stored (strtoi_base_generic (L := L) T str base res num)
   = Some (sr_val (strto_call (L := L) T str base))).
Proof.
  intros HW. destruct (supported T) eqn:HT.
  - assert (Hp : returned (strtoi_base_generic (L := L) T str base res num)
                 = Some 0
                 <-> strtoi_base_generic (L := L) T str base res num
                     = Some (0, sr_val (strto_call (L := L) T str base))).
    { split.
      - intros E.
        destruct (strtoi_base_generic (L := L) T str base res num)
          as [[r n]|] eqn:Ec; [|discriminate]. simpl in E.
        injection E as ->.
        pose proof (proj1 (macro_success L T str base res num n HW HT) Ec)
          as (_ & _ & -> & _). reflexivity.
      - intros ->. reflexivity. }
    pose proof (macro_success L T str base res num
                  (sr_val (strto_call (L := L) T str base)) HW HT) as Hs.
    split.
    + rewrite Hp, Hs. split.
      * intros (Hok & He & _ & Hr & Hm). auto.
      * intros (_ & Hok & He & Hr & Hm). auto.
    + intros E. apply Hp in E. now rewrite E.
  - rewrite macro_unsupported_type by assumption. simpl.
    split; [|discriminate]. split; [discriminate|].
    intros (H & _). discriminate.
Qed.

Lemma scan_digits_nonneg b s acc :
  0 <= b -> 0 <= acc -> 0 <= fst (scan_digits b s acc).
Proof.
  intros Hb. revert acc. induction s as [|c s IH]; intros acc Ha; simpl.
  - exact Ha.
  - destruct (digit_value c) as [d|] eqn:Hd; [|exact Ha].
    destruct (d <? b); [|exact Ha].
    pose proof (digit_value_range c d Hd).
    specialize (IH (acc * b + d) ltac:(nia)).
    destruct (scan_digits b s (acc * b + d)). exact IH.
Qed.

Lemma scan_integer_nonneg str base :
  base_supported base = true -> 0 <= sj_mag (scan_integer str base).
Proof.
  intros Hb. apply base_supported_range in Hb. unfold scan_integer.
  destruct (skip_space str) as [nws s1].
  destruct (skip_sign s1) as [[neg nsg] s2].
  assert (Hp : 0 <= fst (fst (skip_prefix base s2))).
  { unfold skip_prefix.
    destruct (((base =? 0) || (base =? 16)) && is_hex_prefix s2).
    - destruct s2 as [|? [|? ?]]; simpl; lia.
    - destruct (Z.eqb_spec base 0); simpl;
        [destruct (starts_with_zero s2)|]; lia. }
  destruct (skip_prefix base s2) as [[b npx] s3]. simpl in Hp.
  pose proof (scan_digits_nonneg b s3 0 Hp ltac:(lia)) as Hv.
  destruct (scan_digits b s3 0) as [v nd]. simpl in Hv.
  destruct (nd =? 0)%nat; simpl; lia.
Qed.

Lemma libc_well_ranged : well_ranged libc.
Proof.
  intros str base. simpl. unfold strtoll_model, strtoull_model.
  destruct (base_supported base) eqn:Hb; simpl;
    [|unfold LLONG_MIN, LLONG_MAX, ULLONG_MAX; lia].
  pose proof (scan_integer_nonneg str base Hb) as Hm. split.
  - repeat match goal with
      | |- context [if ?x <? ?y then _ else _] =>
          destruct (Z.ltb_spec x y); simpl
      | |- context [if ?x >? ?y then _ else _] =>
          rewrite (Z.gtb_ltb x y); destruct (Z.ltb_spec y x); simpl
      end; unfold LLONG_MIN, LLONG_MAX in *; lia.
  - rewrite Z.gtb_ltb.
    destruct (Z.ltb_spec ULLONG_MAX (sj_mag (scan_integer str base))); simpl.
    + unfold ULLONG_MAX. lia.
    + destruct (sj_neg (scan_integer str base)); [|lia].
      unfold wrap_unsigned, ULLONG_MAX.
      pose proof (Z.mod_pos_bound (- sj_mag (scan_integer str base))
                    (2 ^ 64) ltac:(reflexivity)) as Hmod.
      change (2 ^ 64) with 18446744073709551616 in *. lia.
Qed.

Lemma success_is_exact_witness :
  well_ranged libc /\
  returned (strtoi_base_generic (L := libc) unsigned_short "65535" 10 5 7)
  = Some 0 /\
  stored (strtoi_base_generic (L := libc) unsigned_short "65535" 10 5 7)
  = Some (sr_val (strto_call (L := libc) unsigned_short "65535" 10)).
Proof.
  refine (conj libc_well_ranged (conj eq_refl _)).
  exact (proj2 (success_is_exact libc unsigned_short "65535" 10 5 7
                  libc_well_ranged) eq_refl).
Defined.

(** X2.  Widening keeps a success.  With a C library that returns values
    of its return types: when a call into [T1] returns 0, the same call
    into any supported [T2] of the same signedness whose bounds enclose
    those of [T1] returns 0 too and stores the same value. *)
Theorem widening_keeps_success
    (L : Libc) T1 T2 str base res1 num1 res2 num2 v :
  well_ranged L ->
  supported T2 = true ->
  is_unsigned T1 = is_unsigned T2 ->
  STRTOI_GENERIC_INTMIN T2 <= STRTOI_GENERIC_INTMIN T1 ->
  STRTOI_GENERIC_INTMAX T1 <= STRTOI_GENERIC_INTMAX T2 ->
  strtoi_base_generic (L := L) T1 str base res1 num1 = Some (0, v) ->
  strtoi_base_generic (L := L) T2 str base res2 num2 = Some (0, v).
Proof.
  intros HW HT2 HU Hmin Hmax E1.
  assert (HT1 : supported T1 = true).
  { destruct (supported T1) eqn:HT1; [reflexivity|].
    rewrite macro_unsupported_type in E1 by assumption. discriminate. }
  apply (macro_success L T1 str base res1 num1 _ HW HT1) in E1.
  destruct E1 as (Hok & He & Ev & Hr & Hm).
  assert (Ec : strto_call (L := L) T2 str base
               = strto_call (L := L) T1 str base)
    by (unfold strto_call; now rewrite HU).
  apply (macro_success L T2 str base res2 num2 _ HW HT2).
  rewrite Ec. split; [exact Hok|]. split; [exact He|]. split; [exact Ev|].
  split.
  - unfold representable in *. lia.
  - rewrite <- HU. exact Hm.
Qed.

Lemma widening_keeps_success_witness :
  well_ranged libc /\
  strtoi_base_generic (L := libc) signed_char "-128" 0 5 7 = Some (0, -128) /\
  strtoi_base_generic (L := libc) signed_int "-128" 0 6 8 = Some (0, -128).
Proof.
  refine (conj libc_well_ranged (conj eq_refl _)).
  apply (widening_keeps_success libc signed_char signed_int "-128" 0 5 7 6 8
           (-128) libc_well_ranged); try reflexivity; vm_compute; discriminate.
Defined.

Lemma func_ignores_num (L : Libc) str min max type base num num' :
  returned (strtoi_generic_func (L := L) str min max type base num)
  = returned (strtoi_generic_func (L := L) str min max type base num') /\
  (returned (strtoi_generic_func (L := L) str min max type base num)
   = Some 0 ->
   strtoi_generic_func (L := L) str min max type base num
   = strtoi_generic_func (L := L) str min max type base num').
Proof.
  unfold strtoi_generic_func. cbv zeta.
  repeat match goal with
    | |- context [match ?o with Some _ => _ | None => _ end] => destruct o
    | |- context [if ?b then _ else _] => destruct b
    end; simpl; split; auto; discriminate.
Qed.

(** X3.  The macro declares its local [num] without a value and the
    caller's [*res] may hold anything: neither is ever observed.  The
    returned value does not depend on them, and a call that returns 0
    stores a value that does not depend on them either. *)
Theorem result_ignores_prior_contents
    (L : Libc) T str base res num res' num' :
  returned (strtoi_base_generic (L := L) T str base res num)
  = returned (strtoi_base_generic (L := L) T str base res' num') /\
  (returned (strtoi_base_generic (L := L) T str base res num) = Some 0 ->
   strtoi_base_generic (L := L) T str base res num
   = strtoi_base_generic (L := L) T str base res' num').
Proof.
  rewrite !macro_of_func.
  destruct (func_ignores_num L str (STRTOI_GENERIC_INTMIN T)
              (STRTOI_GENERIC_INTMAX T) (STRTOI_GENERIC_TYPENAME T) base
              num num') as [Ef Es].
  destruct (strtoi_generic_func (L := L) str (STRTOI_GENERIC_INTMIN T)
              (STRTOI_GENERIC_INTMAX T) (STRTOI_GENERIC_TYPENAME T) base
              num) as [[r n]|];
    destruct (strtoi_generic_func (L := L) str (STRTOI_GENERIC_INTMIN T)
                (STRTOI_GENERIC_INTMAX T) (STRTOI_GENERIC_TYPENAME T) base
                num') as [[r' n']|]; simpl in Ef; try discriminate Ef.
  - injection Ef as <-.
    destruct (Z.eqb_spec r 0) as [E | E]; simpl.
    + split; [reflexivity|]. intros _. subst r.
      specialize (Es eq_refl). now injection Es as <-.
    + split; [reflexivity|]. intros [= H]. contradiction.
  - split; [reflexivity|]. discriminate.
Qed.

Lemma result_ignores_prior_contents_witness :
  returned (strtoi_base_generic (L := libc) signed_int "42" 10 5 7)
  = Some 0 /\
  strtoi_base_generic (L := libc) signed_int "42" 10 5 7
  = strtoi_base_generic (L := libc) signed_int "42" 10 6 8.
Proof.
  refine (conj eq_refl _).
  exact (proj2 (result_ignores_prior_contents libc signed_int "42" 10
                  5 7 6 8) eq_refl).
Defined.

(** ** Numerals, over the model of the C library *)

Lemma numeral_value_nonneg b ds acc :
  0 <= b -> 0 <= acc -> 0 <= numeral_value b ds acc.
Proof.
  intros Hb. revert acc. induction ds as [|c ds IH]; intros acc Ha; simpl.
  - exact Ha.
  - destruct (digit_value c) as [d|] eqn:Hd; [|exact Ha].
    pose proof (digit_value_range c d Hd). apply IH. nia.
Qed.

Lemma strchr_no_minus s :
  all_chars (fun a => negb (a =? "-")%char) s = true -> strchr s "-" = None.
Proof.
  apply strchr_absent; [|discriminate].
  intros a Ha E. subst a. discriminate.
Qed.

(** What the header returns when the model reads all of a non-empty
    [str] as a number with sign [neg] and magnitude [m]. *)
Lemma model_outcome T str base res num neg m :
  supported T = true ->
  base_supported base = true ->
  scan_integer str base
  = {| sj_neg := neg; sj_mag := m; sj_end := String.length str |} ->
  String.length str <> 0%nat ->
  0 <= m ->
  is_some (strchr str "-") = neg ->
  strtoi_base_generic (L := libc) T str base res num
  = Some (if is_unsigned T then
            if neg || (m >? STRTOI_GENERIC_INTMAX T) then (- ERANGE, res)
            else (0, m)
          else
            if ((if neg then - m else m) <? STRTOI_GENERIC_INTMIN T)
               || ((if neg then - m else m) >? STRTOI_GENERIC_INTMAX T)
            then (- ERANGE, res)
            else (0, if neg then - m else m)).
Proof.
  intros HT Hb Hscan Hlen Hm Hminus.
  destruct (is_unsigned T) eqn:HU.
  - pose proof (unsigned_max_bound T HU) as Hmax.
    assert (Ecall : strto_call (L := libc) T str base
                    = if m >? ULLONG_MAX then
                        {| sr_val := ULLONG_MAX;
                           sr_end := Some (String.length str);
                           sr_errno := ERANGE |}
                      else
                        {| sr_val := if neg then wrap_unsigned 64 (- m)
                                     else m;
                           sr_end := Some (String.length str); sr_errno := 0 |}).
    { unfold strto_call. rewrite HU. simpl. unfold strtoull_model.
      rewrite Hb, Hscan. reflexivity. }
    rewrite Z.gtb_ltb in Ecall.
    destruct (Z.ltb_spec ULLONG_MAX m) as [Hov | Hin].
    + rewrite macro_library_overflow; rewrite ?Ecall; simpl; auto.
      * rewrite Z.gtb_ltb.
        destruct (Z.ltb_spec (STRTOI_GENERIC_INTMAX T) m); [|lia].
        now rewrite orb_true_r.
      * unfold format_ok; simpl; auto using char_at_end.
    + rewrite macro_range_tests; rewrite ?Ecall; simpl; auto.
      2:{ unfold format_ok; simpl; auto using char_at_end. }
      rewrite HU, Hminus. destruct neg; [reflexivity|]. simpl.
      rewrite (u64_of_long_long m) by lia.
      rewrite Z.gtb_ltb.
      destruct (Z.ltb_spec (STRTOI_GENERIC_INTMAX T) m); [reflexivity|].
      assert (Hr : representable T m).
      { unfold representable. rewrite (unsigned_min_zero T HU). lia. }
      now destruct (unsigned_accepts T m HU Hr) as [_ ->].
  - assert (HS : is_signed T = true) by (unfold is_signed; now rewrite HT, HU).
    destruct (signed_bounds T HS) as (Hlo & Hneg & Hpos & Hhi).
    set (v := if neg then - m else m) in *.
    assert (Ecall : strto_call (L := libc) T str base
                    = if v <? LLONG_MIN then
                        {| sr_val := LLONG_MIN;
                           sr_end := Some (String.length str);
                           sr_errno := ERANGE |}
                      else if v >? LLONG_MAX then
                        {| sr_val := LLONG_MAX;
                           sr_end := Some (String.length str);
                           sr_errno := ERANGE |}
                      else
                        {| sr_val := v; sr_end := Some (String.length str);
                           sr_errno := 0 |}).
    { unfold strto_call. rewrite HU. simpl. unfold strtoll_model.
      rewrite Hb, Hscan. reflexivity. }
    rewrite Z.gtb_ltb in Ecall. rewrite (Z.gtb_ltb v).
    destruct (Z.ltb_spec v LLONG_MIN) as [Hu | Hu].
    { rewrite macro_library_overflow; rewrite ?Ecall; simpl; auto.
      - destruct (Z.ltb_spec v (STRTOI_GENERIC_INTMIN T)); [reflexivity|lia].
      - unfold format_ok; simpl; auto using char_at_end. }
    destruct (Z.ltb_spec LLONG_MAX v) as [Ho | Ho].
    { rewrite macro_library_overflow; rewrite ?Ecall; simpl; auto.
      - destruct (Z.ltb_spec (STRTOI_GENERIC_INTMAX T) v); [|lia].
        now rewrite orb_true_r.
      - unfold format_ok; simpl; auto using char_at_end. }
    rewrite macro_range_tests; rewrite ?Ecall; simpl; auto.
    2:{ unfold format_ok; simpl; auto using char_at_end. }
    rewrite HU.
    assert (Ec : ((v <? STRTOI_GENERIC_INTMIN T)
                  || ((v >? 0)
                      && (to_unsigned_long_long v
                          >? STRTOI_GENERIC_INTMAX T)))
                 = ((v <? STRTOI_GENERIC_INTMIN T)
                    || (STRTOI_GENERIC_INTMAX T <? v))).
    { rewrite !Z.gtb_ltb.
      destruct (Z.ltb_spec v (STRTOI_GENERIC_INTMIN T)); [reflexivity|].
      simpl. destruct (Z.ltb_spec 0 v) as [Hp | Hp]; simpl.
      - replace (to_unsigned_long_long v) with v; [reflexivity|].
        symmetry. apply wrap_unsigned_id.
        change (2 ^ 64) with 18446744073709551616.
        unfold LLONG_MAX in Ho. lia.
      - symmetry. apply Z.ltb_ge. lia. }
    rewrite Ec.
    destruct ((v <? STRTOI_GENERIC_INTMIN T)
              || (STRTOI_GENERIC_INTMAX T <? v)) eqn:Et; [reflexivity|].
    apply orb_false_iff in Et as [E1 E2]. apply Z.ltb_ge in E1, E2.
    assert (Hr : representable T v) by (unfold representable; lia).
    now destruct (signed_accepts T v HS Hr) as [_ ->].
Qed.

(** The model reads all of: white space, an optional sign, digits. *)
Lemma numeral_scan base ws sg ds :
  base_supported base = true ->
  all_chars isspace ws = true ->
  is_sign sg = true ->
  ds <> "" ->
  all_chars (valid_digit (radix base ds)) ds = true ->
  scan_integer (ws ++ sg ++ ds) base
  = {| sj_neg := (sg =? "-")%string;
       sj_mag := numeral_value (radix base ds) ds 0;
       sj_end := String.length (ws ++ sg ++ ds) |} /\
  String.length (ws ++ sg ++ ds) <> 0%nat /\
  0 <= numeral_value (radix base ds) ds 0 /\
  is_some (strchr (ws ++ sg ++ ds) "-") = (sg =? "-")%string.
Proof.
  intros Hb Hws Hsg Hne Hds.
  pose proof (radix_range base ds Hb) as Hr.
  split; [|split; [|split]].
  - pose proof (scan_integer_numeral base ws sg ds "" Hb Hws Hsg Hne Hds
                  eq_refl (fun _ => I)) as E.
    rewrite app_nil_r in E. rewrite E, !length_app. f_equal. lia.
  - rewrite !length_app. destruct ds; [contradiction|]. simpl. lia.
  - apply numeral_value_nonneg; lia.
  - assert (Hnm : forall s, all_chars isspace s = true ->
                   all_chars (fun a => negb (a =? "-")%char) s = true).
    { intros s. apply all_chars_weaken. intros c Hc.
      destruct (space_no_sign c Hc) as (H1 & _).
      apply Ascii.eqb_neq in H1. now rewrite H1. }
    assert (Hdm : all_chars (fun a => negb (a =? "-")%char) ds = true).
    { revert Hds. apply all_chars_weaken. intros c Hc.
      destruct (digit_no_sign _ _ Hc) as (H1 & _).
      apply Ascii.eqb_neq in H1. now rewrite H1. }
    unfold is_sign in Hsg. rewrite !orb_true_iff, !String.eqb_eq in Hsg.
    destruct Hsg as [[-> | ->] | ->]; simpl.
    + rewrite strchr_no_minus; [reflexivity|].
      now rewrite all_chars_app, (Hnm ws Hws), Hdm.
    + rewrite strchr_no_minus; [reflexivity|].
      rewrite all_chars_app, (Hnm ws Hws). simpl. exact Hdm.
    + rewrite strchr_app_found; [reflexivity|].
      revert Hws. apply all_chars_weaken. intros c Hc.
      destruct (space_no_sign c Hc) as (H1 & _ & H2).
      apply Ascii.eqb_neq in H1, H2. now rewrite H1, H2.
Qed.

(** X4.  A numeral into a signed destination.  For a supported base, the
    string made of optional white space, an optional sign and one or more
    digits of the base (with base 0: octal digits after a leading 0,
    decimal digits otherwise) is parsed to its mathematical value [v]: the
    call returns 0 and stores [v] when [v] lies within the bounds of the
    destination, and returns -ERANGE otherwise, however large the number
    is. *)
Theorem signed_numeral_outcome T ws sg ds base res num :
  is_signed T = true ->
  base_supported base = true ->
  all_chars isspace ws = true ->
  is_sign sg = true ->
  ds <> "" ->
  all_chars (valid_digit (radix base ds)) ds = true ->
  strtoi_base_generic (L := libc) T (ws ++ sg ++ ds) base res num
  = Some
      (if (STRTOI_GENERIC_INTMIN T
        <=? (if (sg =? "-")%string
             then - numeral_value (radix base ds) ds 0
             else numeral_value (radix base ds) ds 0))
       && ((if (sg =? "-")%string
            then - numeral_value (radix base ds) ds 0
            else numeral_value (radix base ds) ds 0)
           <=? STRTOI_GENERIC_INTMAX T)
       then (0, if (sg =? "-")%string
                then - numeral_value (radix base ds) ds 0
                else numeral_value (radix base ds) ds 0)
       else (- ERANGE, res)).
Proof.
  intros HS Hb Hws Hsg Hne Hds.
  destruct (signed_supported T HS) as [HT HU].
  destruct (numeral_scan base ws sg ds Hb Hws Hsg Hne Hds)
    as (Hscan & Hlen & Hm & Hminus).
  rewrite (model_outcome T _ base res num _ _ HT Hb Hscan Hlen Hm Hminus).
  rewrite HU. rewrite Z.gtb_ltb.
  set (v := if (sg =? "-")%string
            then - numeral_value (radix base ds) ds 0
            else numeral_value (radix base ds) ds 0).
  destruct (Z.ltb_spec v (STRTOI_GENERIC_INTMIN T)),
    (Z.ltb_spec (STRTOI_GENERIC_INTMAX T) v),
    (Z.leb_spec (STRTOI_GENERIC_INTMIN T) v),
    (Z.leb_spec v (STRTOI_GENERIC_INTMAX T)); simpl; reflexivity || lia.
Qed.

Lemma signed_numeral_outcome_witness :
  is_signed signed_short = true /\
  base_supported 0 = true /\
  strtoi_base_generic (L := libc) signed_short "  -0777" 0 5 7
  = Some (0, -511).
Proof.
  refine (conj eq_refl (conj eq_refl _)).
  apply (signed_numeral_outcome signed_short "  " "-" "0777" 0 5 7);
    reflexivity || discriminate.
Defined.

(** X5.  A numeral into an unsigned destination.  For a supported base,
    the string made of optional white space, an optional sign and one or
    more digits of the base is out of range when the sign is '-', whatever
    the digits are (even "-0"); without a '-' the call returns 0 and
    stores the mathematical value of the digits when it does not exceed
    the maximum of the destination, and returns -ERANGE otherwise. *)
Theorem unsigned_numeral_outcome T ws sg ds base res num :
  is_unsigned T = true ->
  base_supported base = true ->
  all_chars isspace ws = true ->
  is_sign sg = true ->
  ds <> "" ->
  all_chars (valid_digit (radix base ds)) ds = true ->
  strtoi_base_generic (L := libc) T (ws ++ sg ++ ds) base res num
  = Some (if (sg =? "-")%string then (- ERANGE, res)
          else if numeral_value (radix base ds) ds 0
                  <=? STRTOI_GENERIC_INTMAX T
               then (0, numeral_value (radix base ds) ds 0)
               else (- ERANGE, res)).
Proof.
  intros HU Hb Hws Hsg Hne Hds.
  pose proof (unsigned_supported T HU) as HT.
  destruct (numeral_scan base ws sg ds Hb Hws Hsg Hne Hds)
    as (Hscan & Hlen & Hm & Hminus).
  rewrite (model_outcome T _ base res num _ _ HT Hb Hscan Hlen Hm Hminus).
  rewrite HU. destruct (sg =? "-")%string; [reflexivity|]. simpl.
  rewrite Z.gtb_ltb.
  destruct (Z.ltb_spec (STRTOI_GENERIC_INTMAX T)
              (numeral_value (radix base ds) ds 0)),
    (Z.leb_spec (numeral_value (radix base ds) ds 0)
       (STRTOI_GENERIC_INTMAX T)); reflexivity || lia.
Qed.

Lemma unsigned_numeral_outcome_witness :
  is_unsigned unsigned_char = true /\
  base_supported 16 = true /\
  strtoi_base_generic (L := libc) unsigned_char " +fF" 16 5 7
  = Some (0, 255) /\
  strtoi_base_generic (L := libc) unsigned_char "-0" 10 5 7
  = Some (- ERANGE, 5).
Proof.
  refine (conj eq_refl (conj eq_refl (conj _ _))).
  - apply (unsigned_numeral_outcome unsigned_char " " "+" "fF" 16 5 7);
      reflexivity || discriminate.
  - apply (unsigned_numeral_outcome unsigned_char "" "-" "0" 10 5 7);
      reflexivity || discriminate.
Defined.

(** The model reads all of: white space, an optional sign, "0x" or "0X",
    hexadecimal digits, when the base is 0 or 16. *)
Lemma hex_scan base ws sg px hs :
  base = 0 \/ base = 16 ->
  all_chars isspace ws = true ->
  is_sign sg = true ->
  px = "0x" \/ px = "0X" ->
  hs <> "" ->
  all_chars (valid_digit 16) hs = true ->
  scan_integer (ws ++ sg ++ px ++ hs) base
  = {| sj_neg := (sg =? "-")%string;
       sj_mag := numeral_value 16 hs 0;
       sj_end := String.length (ws ++ sg ++ px ++ hs) |} /\
  String.length (ws ++ sg ++ px ++ hs) <> 0%nat /\
  is_some (strchr (ws ++ sg ++ px ++ hs) "-") = (sg =? "-")%string.
Proof.
  intros Hb Hws Hsg Hpx Hne Hhs.
  destruct hs as [|h hs']; [contradiction|].
  pose proof Hhs as Hh. simpl in Hh. apply andb_true_iff in Hh as [Hh _].
  assert (Hp0 : exists x, px = String "0" (String x "") /\
                          (x = "x" \/ x = "X")%char).
  { destruct Hpx as [-> | ->]; eauto. }
  destruct Hp0 as (x & -> & Hx).
  split; [|split].
  - unfold scan_integer.
    rewrite skip_space_app; [|exact Hws|].
    2:{ unfold is_sign in Hsg. rewrite !orb_true_iff, !String.eqb_eq in Hsg.
        destruct Hsg as [[-> | ->] | ->]; reflexivity. }
    rewrite skip_sign_app; [|exact Hsg|].
    2:{ simpl. split; discriminate. }
    assert (Ep : skip_prefix base (String "0" (String x "") ++ String h hs')
                 = (16, 2%nat, String h hs')).
    { unfold skip_prefix.
      assert (E1 : (base =? 0) || (base =? 16) = true)
        by (destruct Hb as [-> | ->]; reflexivity).
      assert (E2 : is_hex_prefix
                     (String "0" (String x "") ++ String h hs') = true).
      { simpl. rewrite Hh. destruct Hx as [-> | ->]; reflexivity. }
      rewrite E1, E2. reflexivity. }
    rewrite Ep.
    pose proof (scan_digits_app 16 (String h hs') "" 0 Hhs eq_refl) as Ed.
    rewrite app_nil_r in Ed. rewrite Ed.
    change (String.length (String h hs') =? 0)%nat with false.
    rewrite !length_app. simpl. f_equal. lia.
  - rewrite !length_app. simpl. lia.
  - assert (Hnm : all_chars (fun a => negb (a =? "-")%char) ws = true).
    { revert Hws. apply all_chars_weaken. intros c Hc.
      destruct (space_no_sign c Hc) as (H1 & _).
      apply Ascii.eqb_neq in H1. now rewrite H1. }
    assert (Hdm : all_chars (fun a => negb (a =? "-")%char)
                    (String "0" (String x "") ++ String h hs') = true).
    { assert (Ex : (x =? "-")%char = false)
        by (destruct Hx as [-> | ->]; reflexivity).
      assert (Hd : all_chars (fun a => negb (a =? "-")%char) (String h hs')
                   = true).
      { revert Hhs. apply all_chars_weaken.
        intros c Hc. destruct (digit_no_sign _ _ Hc) as (H1 & _).
        apply Ascii.eqb_neq in H1. now rewrite H1. }
      rewrite all_chars_app, Hd. simpl. now rewrite Ex. }
    unfold is_sign in Hsg. rewrite !orb_true_iff, !String.eqb_eq in Hsg.
    destruct Hsg as [[-> | ->] | ->].
    + rewrite strchr_no_minus; [reflexivity|].
      rewrite all_chars_app, Hnm. exact Hdm.
    + rewrite strchr_no_minus; [reflexivity|].
      rewrite all_chars_app, Hnm. exact Hdm.
    + cbn [append]. rewrite strchr_app_found; [reflexivity|].
      revert Hws. apply all_chars_weaken. intros c Hc.
      destruct (space_no_sign c Hc) as (H1 & _ & H2).
      apply Ascii.eqb_neq in H1, H2. now rewrite H1, H2.
Qed.

(** X6.  The hexadecimal prefix.  With base 0 or base 16, a numeral that
    carries "0x" or "0X" between the optional sign and its hexadecimal
    digits gives exactly what the same numeral without the prefix gives
    with base 16: the same return value and the same stored value, for
    every destination type. *)
Theorem hex_prefix_is_skipped T ws sg px hs base res num :
  base = 0 \/ base = 16 ->
  all_chars isspace ws = true ->
  is_sign sg = true ->
  px = "0x" \/ px = "0X" ->
  hs <> "" ->
  all_chars (valid_digit 16) hs = true ->
  strtoi_base_generic (L := libc) T (ws ++ sg ++ px ++ hs) base res num
  = strtoi_base_generic (L := libc) T (ws ++ sg ++ hs) 16 res num.
Proof.
  intros Hb Hws Hsg Hpx Hne Hhs.
  destruct (supported T) eqn:HT.
  2:{ now rewrite !macro_unsupported_type. }
  assert (Hb' : base_supported base = true)
    by (destruct Hb as [-> | ->]; reflexivity).
  destruct (hex_scan base ws sg px hs Hb Hws Hsg Hpx Hne Hhs)
    as (Hscan & Hlen & Hminus).
  destruct (numeral_scan 16 ws sg hs eq_refl Hws Hsg Hne Hhs)
    as (Hscan' & Hlen' & Hm & Hminus').
  change (radix 16 hs) with 16 in *.
  rewrite (model_outcome T _ base res num _ _ HT Hb' Hscan Hlen Hm Hminus).
  rewrite (model_outcome T _ 16 res num _ _ HT eq_refl Hscan' Hlen' Hm
             Hminus').
  reflexivity.
Qed.

Lemma hex_prefix_is_skipped_witness :
  strtoi_base_generic (L := libc) signed_int "0x1F" 0 5 7 = Some (0, 31) /\
  strtoi_base_generic (L := libc) signed_int "0x1F" 0 5 7
  = strtoi_base_generic (L := libc) signed_int "1F" 16 5 7.
Proof.
  refine (conj eq_refl _).
  apply (hex_prefix_is_skipped signed_int "" "" "0x" "1F" 0 5 7);
    try reflexivity; try discriminate; left; reflexivity.
Defined.

(** X7.  What base 0 detects.  On a numeral without a "0x" prefix,
    [strtoi_generic], which passes base 0, gives exactly what
    [strtoi_base_generic] gives with base 8 when the digits start with a
    0, and with base 10 otherwise. *)
Theorem auto_base_is_detected T ws sg ds res num :
  all_chars isspace ws = true ->
  is_sign sg = true ->
  ds <> "" ->
  all_chars (valid_digit (if starts_with_zero ds then 8 else 10)) ds = true ->
  strtoi_generic (L := libc) T (ws ++ sg ++ ds) res num
  = strtoi_base_generic (L := libc) T (ws ++ sg ++ ds)
      (if starts_with_zero ds then 8 else 10) res num.
Proof.
  intros Hws Hsg Hne Hds. unfold strtoi_generic.
  destruct (supported T) eqn:HT.
  2:{ now rewrite !macro_unsupported_type. }
  set (b := if starts_with_zero ds then 8 else 10) in *.
  assert (Hb : base_supported b = true)
    by (unfold b; destruct (starts_with_zero ds); reflexivity).
  assert (Er0 : radix 0 ds = b) by reflexivity.
  assert (Erb : radix b ds = b)
    by (unfold b, radix; destruct (starts_with_zero ds); reflexivity).
  destruct (numeral_scan 0 ws sg ds eq_refl Hws Hsg Hne)
    as (Hscan & Hlen & Hm & Hminus); [now rewrite Er0|].
  destruct (numeral_scan b ws sg ds Hb Hws Hsg Hne)
    as (Hscan' & Hlen' & Hm' & Hminus'); [now rewrite Erb|].
  rewrite Er0 in *. rewrite Erb in *.
  rewrite (model_outcome T _ 0 res num _ _ HT eq_refl Hscan Hlen Hm Hminus).
  rewrite (model_outcome T _ b res num _ _ HT Hb Hscan' Hlen' Hm' Hminus').
  reflexivity.
Qed.

Lemma auto_base_is_detected_witness :
  strtoi_generic (L := libc) signed_int "010" 5 7 = Some (0, 8) /\
  strtoi_generic (L := libc) signed_int "010" 5 7
  = strtoi_base_generic (L := libc) signed_int "010" 8 5 7.
Proof.
  refine (conj eq_refl _).
  apply (auto_base_is_detected signed_int "" "" "010" 5 7);
    reflexivity || discriminate.
Defined.

(** ** Leading white space *)

Lemma scan_integer_space c s base :
  isspace c = true ->
  scan_integer (String c s) base
  = if (sj_end (scan_integer s base) =? 0)%nat then scan_integer s base
    else {| sj_neg := sj_neg (scan_integer s base);
            sj_mag := sj_mag (scan_integer s base);
            sj_end := S (sj_end (scan_integer s base)) |}.
Proof.
  intros Hc. unfold scan_integer. simpl skip_space. rewrite Hc.
  destruct (skip_space s) as [nws s1].
  destruct (skip_sign s1) as [[neg nsg] s2].
  destruct (skip_prefix base s2) as [[b npx] s3].
  destruct (scan_digits b s3 0) as [v nd].
  destruct (Nat.eqb_spec nd 0) as [E | E]; simpl; [reflexivity|].
  destruct (Nat.eqb_spec (nws + nsg + npx + nd) 0) as [E' | _]; [lia|].
  reflexivity.
Qed.

(** One more leading white space moves the end pointer along and changes
    nothing else in what the model reports. *)
Lemma strto_call_space T c s base :
  isspace c = true ->
  sr_val (strto_call (L := libc) T (String c s) base)
  = sr_val (strto_call (L := libc) T s base) /\
  sr_errno (strto_call (L := libc) T (String c s) base)
  = sr_errno (strto_call (L := libc) T s base) /\
  sr_end (strto_call (L := libc) T (String c s) base)
  = match sr_end (strto_call (L := libc) T s base) with
    | Some e => Some (if (e =? 0)%nat then 0%nat else S e)
    | None => None
    end.
Proof.
  intros Hc. unfold strto_call. simpl.
  unfold strtoull_model, strtoll_model.
  rewrite (scan_integer_space c s base Hc).
  set (j := scan_integer s base).
  destruct (base_supported base); simpl;
    [|destruct (is_unsigned T); simpl; auto].
  destruct (Nat.eqb_spec (sj_end j) 0) as [E | E].
  - destruct (is_unsigned T);
      repeat match goal with
        | |- context [if ?b then _ else _] => destruct b
        end; simpl; rewrite ?E; auto.
  - assert (Ez : (sj_end j =? 0)%nat = false) by now apply Nat.eqb_neq.
    simpl.
    destruct (is_unsigned T);
      repeat match goal with
        | |- context [if ?x >? ?y then _ else _] => destruct (x >? y)
        | |- context [if ?x <? ?y then _ else _] => destruct (x <? y)
        | |- context [if sj_neg ?x then _ else _] => destruct (sj_neg x)
        end; simpl; rewrite Ez; auto.
Qed.

Lemma leading_space_one T c s base res num :
  isspace c = true ->
  strtoi_base_generic (L := libc) T (String c s) base res num
  = strtoi_base_generic (L := libc) T s base res num.
Proof.
  intros Hc.
  destruct (strto_call_space T c s base Hc) as (Ev & Ee & En).
  destruct (space_no_sign c Hc) as (Hm & _ & Hz).
  apply Ascii.eqb_neq in Hm, Hz.
  assert (Es : is_some (strchr (String c s) "-")
               = is_some (strchr s "-")).
  { simpl. rewrite Hm, Hz. now destruct (strchr s "-"). }
  unfold strtoi_base_generic, strtoi_generic_func.
  destruct (typename_value (STRTOI_GENERIC_TYPENAME T) =? 0); [reflexivity|].
  unfold strto_call, is_unsigned in Ev, Ee, En.
  destruct (above_unsigned (STRTOI_GENERIC_TYPENAME T)); cbv zeta;
    rewrite Ev, Ee, En, ?Es;
    match goal with
    | |- context [sr_end ?r] => destruct (sr_end r) as [e|]
    end; try reflexivity;
    (destruct (Nat.eqb_spec e 0) as [E0 | E0]; [reflexivity|]);
    change (S e =? 0)%nat with false;
    change (char_at (String c s) (S e)) with (char_at s e);
    reflexivity.
Qed.

(** X8.  Leading white space is ignored, and nothing else about it
    matters: for every destination type, base and string, putting white
    space in front of the string changes neither the return value nor the
    value stored. *)
Theorem leading_space_is_ignored T ws s base res num :
  all_chars isspace ws = true ->
  strtoi_base_generic (L := libc) T (ws ++ s) base res num
  = strtoi_base_generic (L := libc) T s base res num.
Proof.
  induction ws as [|c ws IH]; simpl; [reflexivity|].
  intros H. apply andb_true_iff in H as [Hc Hws].
  rewrite leading_space_one by assumption. now apply IH.
Qed.

Lemma leading_space_is_ignored_witness :
  all_chars isspace "  " = true /\
  strtoi_base_generic (L := libc) unsigned_int "  12x" 10 5 7
  = strtoi_base_generic (L := libc) unsigned_int "12x" 10 5 7.
Proof.
  refine (conj eq_refl _).
  exact (leading_space_is_ignored unsigned_int "  " "12x" 10 5 7 eq_refl).
Defined.

(** ** The descriptors that the macros build *)

(** X9.  For each of the ten supported destination types the three
    dispatch macros agree with each other and with the conversion to the
    destination: the casts to [long long] and [unsigned long long] leave
    the limits as <limits.h> gives them; the minimum is 0 exactly for the
    types parsed with strtoull and is [- max - 1] for the others; the
    bounds fit the 64-bit parsers; and converting to the destination type
    keeps every value within the bounds. *)
Theorem descriptors_are_consistent T :
  supported T = true ->
  STRTOI_GENERIC_INTMIN T = __STRTOI_GENERIC_INTMIN T /\
  STRTOI_GENERIC_INTMAX T = __STRTOI_GENERIC_INTMAX T /\
  (is_unsigned T = true <-> STRTOI_GENERIC_INTMIN T = 0) /\
  (is_unsigned T = false ->
   STRTOI_GENERIC_INTMIN T = - STRTOI_GENERIC_INTMAX T - 1 /\
   LLONG_MIN <= STRTOI_GENERIC_INTMIN T /\
   STRTOI_GENERIC_INTMAX T <= LLONG_MAX) /\
  0 < STRTOI_GENERIC_INTMAX T <= ULLONG_MAX /\
  (forall v, representable T v -> convert T v = v).
Proof.
  intros HT.
  split; [apply intmin_eq|]. split; [apply intmax_eq|].
  split; [|split; [|split]].
  - destruct T; try discriminate HT; split; intros H;
      reflexivity || discriminate.
  - destruct T; try discriminate HT; intros H; try discriminate H;
      bounds; lia.
  - destruct T; try discriminate HT; bounds; lia.
  - intros v Hv. destruct (is_unsigned T) eqn:HU.
    + destruct T; try discriminate HU; bounds; simpl;
        apply wrap_unsigned_id; simpl; lia.
    + assert (HS : is_signed T = true)
        by (unfold is_signed; now rewrite HT, HU).
      now destruct (signed_accepts T v HS Hv).
Qed.

Lemma descriptors_are_consistent_witness :
  supported signed_int = true /\
  STRTOI_GENERIC_INTMIN signed_int = - STRTOI_GENERIC_INTMAX signed_int - 1.
Proof.
  refine (conj eq_refl _).
  exact (proj1 (proj1 (proj2 (proj2 (proj2
           (descriptors_are_consistent signed_int eq_refl)))) eq_refl)).
Defined.

(** ** Signed and unsigned destinations side by side *)

Lemma skip_space_split s :
  exists ws, s = ws ++ snd (skip_space s) /\ all_chars isspace ws = true.
Proof.
  induction s as [|c s IH]; simpl.
  - exists "". auto.
  - destruct (isspace c) eqn:Hc.
    + destruct IH as (ws & E & Hws). destruct (skip_space s) as [n t].
      simpl in *. exists (String c ws). simpl. rewrite Hc, Hws.
      split; [now rewrite <- E | reflexivity].
    + exists "". auto.
Qed.

(** A minus sign that the model reads is a '-' that strchr finds. *)
Lemma scan_neg_minus str base :
  sj_neg (scan_integer str base) = true ->
  is_some (strchr str "-") = true.
Proof.
  unfold scan_integer.
  destruct (skip_space_split str) as (ws & E & Hws).
  destruct (skip_space str) as [nws s1]. simpl in E.
  destruct (skip_sign s1) as [[neg nsg] s2] eqn:Es.
  destruct (skip_prefix base s2) as [[b npx] s3].
  destruct (scan_digits b s3 0) as [v nd].
  destruct (nd =? 0)%nat; simpl; [discriminate|]. intros ->.
  assert (E1 : exists r, s1 = String "-" r).
  { destruct s1 as [|c r]; simpl in Es; [discriminate|].
    destruct (Ascii.eqb_spec c "-") as [-> | _]; [eauto|].
    destruct (c =? "+")%char; discriminate. }
  destruct E1 as (r & ->). rewrite E.
  rewrite strchr_app_found; [reflexivity|].
  revert Hws. apply all_chars_weaken. intros c Hc.
  destruct (space_no_sign c Hc) as (H1 & _ & H2).
  apply Ascii.eqb_neq in H1, H2. now rewrite H1, H2.
Qed.

Lemma model_same_end str base :
  sr_end (strtoll_model str base) = sr_end (strtoull_model str base).
Proof.
  destruct (base_supported base) eqn:Hb.
  - now rewrite strtoll_model_end, strtoull_model_end.
  - unfold strtoll_model, strtoull_model. now rewrite Hb.
Qed.

(** Without a '-' in the string and without an error, the two functions
    of the model return the same value. *)
Lemma model_same_value str base :
  strchr str "-" = None ->
  (sr_errno (strtoll_model str base) = 0 ->
   sr_errno (strtoull_model str base) = 0 /\
   sr_val (strtoull_model str base) = sr_val (strtoll_model str base)) /\
  (sr_errno (strtoull_model str base) = 0 ->
   sr_val (strtoull_model str base) <= LLONG_MAX ->
   sr_errno (strtoll_model str base) = 0 /\
   sr_val (strtoll_model str base) = sr_val (strtoull_model str base)).
Proof.
  intros Hm. unfold strtoll_model, strtoull_model.
  destruct (base_supported base) eqn:Hb; simpl;
    [|split; intros; discriminate].
  pose proof (scan_integer_nonneg str base Hb) as Hnn.
  destruct (sj_neg (scan_integer str base)) eqn:Hneg.
  { apply scan_neg_minus in Hneg. rewrite Hm in Hneg. discriminate. }
  set (m := sj_mag (scan_integer str base)) in *.
  rewrite !Z.gtb_ltb.
  destruct (Z.ltb_spec m LLONG_MIN) as [H1 | H1];
    [unfold LLONG_MIN in H1; lia|].
  destruct (Z.ltb_spec LLONG_MAX m) as [H2 | H2];
    destruct (Z.ltb_spec ULLONG_MAX m) as [H3 | H3]; simpl;
    unfold LLONG_MAX, ULLONG_MAX in *; split; intros; try discriminate;
    try lia; auto.
Qed.

(** X10.  Signed and unsigned destinations agree on input without a '-'.
    When the string holds no '-': a value that a signed destination
    accepts is accepted, unchanged, by every unsigned destination whose
    maximum it does not exceed; and a value that an unsigned destination
    accepts is accepted, unchanged, by every signed destination whose
    maximum it does not exceed. *)
Theorem sign_agreement Ts Tu str base v res num res' num' :
  is_signed Ts = true ->
  is_unsigned Tu = true ->
  strchr str "-" = None ->
  (strtoi_base_generic (L := libc) Ts str base res num = Some (0, v) ->
   v <= STRTOI_GENERIC_INTMAX Tu ->
   strtoi_base_generic (L := libc) Tu str base res' num' = Some (0, v)) /\
  (strtoi_base_generic (L := libc) Tu str base res' num' = Some (0, v) ->
   v <= STRTOI_GENERIC_INTMAX Ts ->
   strtoi_base_generic (L := libc) Ts str base res num = Some (0, v)).
Proof.
  intros HS HU Hm.
  destruct (signed_supported Ts HS) as [HTs HUs].
  pose proof (unsigned_supported Tu HU) as HTu.
  destruct (signed_bounds Ts HS) as (Hlo & Hneg & Hpos & Hhi).
  pose proof (unsigned_min_zero Tu HU) as Hmin.
  assert (Es : strto_call (L := libc) Ts str base = strtoll_model str base)
    by (unfold strto_call; now rewrite HUs).
  assert (Eu : strto_call (L := libc) Tu str base = strtoull_model str base)
    by (unfold strto_call; now rewrite HU).
  destruct (model_same_value str base Hm) as [Hsu Hus].
  assert (Hur : 0 <= sr_val (strtoull_model str base) <= ULLONG_MAX)
    by apply (libc_well_ranged str base).
  assert (Hfmt : forall r r', sr_end r = sr_end r' ->
            sr_errno r = 0 -> sr_errno r' = 0 ->
            format_ok str r -> format_ok str r').
  { intros r r' Ee E0 E0'. unfold format_ok. rewrite <- Ee, E0, E0'. tauto. }
  split; intros E Hv.
  - apply (macro_success libc Ts str base res num v libc_well_ranged HTs) in E.
    rewrite Es in E. destruct E as (Hok & He & Ev & Hr & _).
    destruct (Hsu He) as [He' Ev'].
    apply (macro_success libc Tu str base res' num' v libc_well_ranged HTu).
    rewrite Eu.
    split; [apply (Hfmt _ _ (model_same_end str base) He He' Hok)|].
    split; [exact He'|]. split; [congruence|].
    split; [|auto].
    unfold representable. rewrite Hmin. lia.
  - apply (macro_success libc Tu str base res' num' v libc_well_ranged HTu) in E.
    rewrite Eu in E. destruct E as (Hok & He & Ev & Hr & _).
    destruct (Hus He) as [He' Ev']; [rewrite <- Ev; lia|].
    apply (macro_success libc Ts str base res num v libc_well_ranged HTs).
    rewrite Es.
    split; [apply (Hfmt _ _ (eq_sym (model_same_end str base)) He He' Hok)|].
    split; [exact He'|]. split; [congruence|].
    split.
    + unfold representable in *. rewrite Hmin in Hr. lia.
    + intros H. rewrite HUs in H. discriminate.
Qed.

Lemma sign_agreement_witness :
  is_signed signed_char = true /\
  is_unsigned unsigned_short = true /\
  strchr "+100" "-" = None /\
  strtoi_base_generic (L := libc) unsigned_short "+100" 10 6 8
  = Some (0, 100).
Proof.
  refine (conj eq_refl (conj eq_refl (conj eq_refl _))).
  apply (proj1 (sign_agreement signed_char unsigned_short "+100" 10 100
                  5 7 6 8 eq_refl eq_refl eq_refl)).
  - reflexivity.
  - vm_compute. discriminate.
Defined.

(** ** The format test and the destination type *)

Lemma macro_einval (L : Libc) T str base res num :
  supported T = true ->
  returned (strtoi_base_generic (L := L) T str base res num)
  = Some (- EINVAL)
  <-> sr_end (strto_call (L := L) T str base) <> None /\
      ~ format_ok str (strto_call (L := L) T str base).
Proof.
  intros HT.
  destruct (macro_cases (L := L) T str base res num)
    as [(H & _) | [(_ & Hs & E) | [(_ & Hs & Hbad & E)
                                   | (_ & Hok & [E | [v E]])]]];
    try congruence; rewrite E; simpl; split;
    try discriminate; tauto.
Qed.

(** X11.  Whether an input is badly formatted does not depend on the
    destination: a call returns -EINVAL into one supported destination
    type exactly when it returns -EINVAL into any other, signed or
    unsigned, with the same string and base. *)
Theorem format_error_ignores_type T T' str base res num res' num' :
  supported T = true ->
  supported T' = true ->
  returned (strtoi_base_generic (L := libc) T str base res num)
  = Some (- EINVAL)
  <-> returned (strtoi_base_generic (L := libc) T' str base res' num')
      = Some (- EINVAL).
Proof.
  intros HT HT'.
  rewrite !macro_einval by assumption.
  assert (Hsame : forall T1 T2,
            sr_end (strto_call (L := libc) T1 str base) <> None /\
            ~ format_ok str (strto_call (L := libc) T1 str base) ->
            sr_end (strto_call (L := libc) T2 str base) <> None /\
            ~ format_ok str (strto_call (L := libc) T2 str base)).
  { intros T1 T2 (Hs & Hbad).
    destruct (base_supported base) eqn:Hb.
    2:{ rewrite strto_model_bad_base in Hs by assumption. contradiction. }
    split; [rewrite strto_model_end by assumption; discriminate|].
    intros Hok. apply Hbad. unfold format_ok in *.
    rewrite strto_model_end in * by assumption.
    destruct Hok as (H0 & Hn & _). split; [exact H0|]. split; [exact Hn|].
    destruct (strto_model_errno T1 str base) as [E | [E | [_ E]]]; auto.
    congruence. }
  split; apply Hsame.
Qed.

Lemma format_error_ignores_type_witness :
  supported signed_char = true /\
  supported unsigned_long_long = true /\
  returned (strtoi_base_generic (L := libc) unsigned_long_long "12 " 10 6 8)
  = Some (- EINVAL).
Proof.
  refine (conj eq_refl (conj eq_refl _)).
  exact (proj1 (format_error_ignores_type signed_char unsigned_long_long
                  "12 " 10 5 7 6 8 eq_refl eq_refl) eq_refl).
Defined.
